(** * extract_trace.py: trace correlation and log-to-report reconstruction

    A shallow embedding of [scripts/extract_trace.py] and the properties of
    its filename codec, trace matcher, step segmenter, material parser,
    source reconciler and report builder.

    Conventions of the embedding:
    - a Python [str] is a list of Unicode code points ([N]);
    - a Python exception is a value of [exn] carried by [result];
    - [print] appends a line to an explicit standard-output log;
    - the JSON dictionaries [Item] and [SourceRecord] are records whose
      fields are optional (the key may be missing from the dictionary);
    - the local time zone, the case mapping of [str.lower] and
      [json.loads] are parameters of the functions that use them. *)

From Stdlib Require Import ZArith NArith Lia String Ascii Sorted.
From stdpp Require Import base option list gmap.

Open Scope N_scope.

(** ** Python strings *)

Abbreviation char := N (only parsing).
Abbreviation str := (list N) (only parsing).

(** UTF-8 decoding of a source literal into code points, so that the
    literals of the script can be written as they are in the source. *)
Fixpoint utf8_decode (bs : list N) : str :=
  match bs with
  | [] => []
  | b0 :: r0 =>
    if b0 <? 128 then b0 :: utf8_decode r0
    else match r0 with
    | [] => [b0]
    | b1 :: r1 =>
      if b0 <? 224 then ((b0 - 192) * 64 + (b1 - 128)) :: utf8_decode r1
      else match r1 with
      | [] => [b0; b1]
      | b2 :: r2 =>
        if b0 <? 240
        then ((b0 - 224) * 4096 + (b1 - 128) * 64 + (b2 - 128)) :: utf8_decode r2
        else match r2 with
        | [] => [b0; b1; b2]
        | b3 :: r3 =>
          ((b0 - 240) * 262144 + (b1 - 128) * 4096 + (b2 - 128) * 64 + (b3 - 128))
            :: utf8_decode r3
        end
      end
    end
  end.

Fixpoint bytes_of_string (s : string) : list N :=
  match s with
  | EmptyString => []
  | String a s' => N_of_ascii a :: bytes_of_string s'
  end.

(** [u] turns a literal of the source into a Python string. *)
Definition u (s : string) : str := utf8_decode (bytes_of_string s).

(** The newline, written [\n] in the source. *)
Definition NL : char := 10.
Definition nl : str := [NL].

(** [str.isspace] for one code point: the Unicode white space characters. *)
Definition is_space (c : char) : bool :=
  ((9 <=? c) && (c <=? 13)) || ((28 <=? c) && (c <=? 32))
  || (c =? 133) || (c =? 160) || (c =? 5760)
  || ((8192 <=? c) && (c <=? 8202))
  || (c =? 8232) || (c =? 8233) || (c =? 8239) || (c =? 8287) || (c =? 12288).

(** [\d]: decimal digits.  Only the ASCII digits are listed; the other
    Unicode decimal digits (category Nd) are outside the tables of this
    development. *)
Definition is_digit (c : char) : bool := (48 <=? c) && (c <=? 57).

(** [[a-f0-9]] *)
Definition is_hex_lower (c : char) : bool :=
  ((97 <=? c) && (c <=? 102)) || ((48 <=? c) && (c <=? 57)).

(** [.] without [re.DOTALL]: any character but the newline. *)
Definition is_dot (c : char) : bool := negb (c =? NL).

(** [.] with [re.DOTALL]. *)
Definition is_any (c : char) : bool := true.

(** [str.lower] on ASCII text.  The case mapping of Unicode as a whole is
    a parameter of the matcher, which this function instantiates for the
    texts written in ASCII. *)
Definition ascii_lower_char (c : char) : char :=
  if (65 <=? c) && (c <=? 90) then c + 32 else c.
Definition ascii_lower (s : str) : str := map ascii_lower_char s.

(** [s.startswith(p)] *)
Fixpoint startswith (p s : str) : bool :=
  match p, s with
  | [], _ => true
  | a :: p', b :: s' => (a =? b) && startswith p' s'
  | _ :: _, [] => false
  end.

(** [p in s] for strings: [p] occurs in [s] as a contiguous run. *)
Fixpoint contains (p s : str) : bool :=
  startswith p s ||
  match s with
  | [] => false
  | _ :: s' => contains p s'
  end.

(** [s.lstrip()], [s.rstrip()], [s.strip()] *)
Fixpoint lstrip (s : str) : str :=
  match s with
  | c :: s' => if is_space c then lstrip s' else s
  | [] => []
  end.
Definition rstrip (s : str) : str := rev (lstrip (rev s)).
Definition strip (s : str) : str := rstrip (lstrip s).

(** [s.split(sep)] for a one-character separator. *)
Fixpoint split (sep : char) (s : str) : list str :=
  match s with
  | [] => [[]]
  | c :: s' =>
    if c =? sep then [] :: split sep s'
    else match split sep s' with
         | l :: ls => (c :: l) :: ls
         | [] => [[c]]
         end
  end.

(** [sep.join(parts)] *)
Fixpoint join (sep : str) (parts : list str) : str :=
  match parts with
  | [] => []
  | [p] => p
  | p :: ps => p ++ sep ++ join sep ps
  end.

(** [s.replace(old, new)] for a non-empty [old]: every occurrence, left
    to right, without overlap.  [skip] counts the characters of an
    occurrence that are still to be passed over. *)
Fixpoint replace_from (old new : str) (skip : nat) (s : str) : str :=
  match s with
  | [] => []
  | c :: s' =>
    match skip with
    | S k => replace_from old new k s'
    | O =>
      if startswith old s
      then new ++ replace_from old new (Nat.pred (length old)) s'
      else c :: replace_from old new O s'
    end
  end.
Definition replace (old new s : str) : str := replace_from old new O s.

(** [str(n)] for a non-negative integer. *)
Fixpoint dec_digits (fuel : nat) (n : N) (acc : str) : str :=
  match fuel with
  | O => acc
  | S f =>
    let acc' := (48 + n mod 10) :: acc in
    if n / 10 =? 0 then acc' else dec_digits f (n / 10) acc'
  end.
Definition str_of_N (n : N) : str := dec_digits (S (N.to_nat (N.log2 n))) n [].
Definition str_of_nat (n : nat) : str := str_of_N (N.of_nat n).
Definition str_of_Z (z : Z) : str :=
  if (z <? 0)%Z then u "-" ++ str_of_N (Z.to_N (- z)) else str_of_N (Z.to_N z).

(** Decimal rendering on a fixed width, zero padded ([%04d], [%02d]). *)
Fixpoint zero_pad (width : nat) (n : N) : str :=
  match width with
  | O => []
  | S w => zero_pad w (n / 10) ++ [48 + n mod 10]
  end.

(** [int(s)] for a run of decimal digits. *)
Definition int_of_digits (s : str) : N :=
  fold_left (fun acc c => acc * 10 + (c - 48)) s 0.

(** ** Exceptions and results *)

Inductive exn :=
| ValueError             (* [datetime.strptime] on a date that does not exist *)
| TimestampOutOfRange.   (* [datetime.fromtimestamp] outside years 1..9999 *)

Inductive result (A : Type) :=
| Ok (a : A)
| Raise (e : exn).
Arguments Ok {A} a.
Arguments Raise {A} e.

(** ** The regular expressions of the script

    The patterns of the script are sequences of literals, character
    classes, repetitions of one character class (greedy or lazy) and
    capturing groups that are not nested.  [rmatch] is the backtracking
    matcher in continuation-passing style: the continuation receives
    the rest of the text and the groups captured so far, and answers
    [None] to make the matcher try its next alternative. *)

Inductive regex :=
| Lit (s : str)                              (* literal text *)
| Cls (p : char -> bool)                     (* one character of a class *)
| Times (n : nat) (p : char -> bool)         (* [p{n}] *)
| Star (greedy : bool) (p : char -> bool)    (* [p*] and [p*?] *)
| Plus (greedy : bool) (p : char -> bool)    (* [p+] and [p+?] *)
| Cat (r1 r2 : regex)
| Grp (r : regex).                           (* [( r )] *)

Infix ">>" := Cat (at level 60, right associativity).

Section Backtracking.
Context {R : Type}.

(** [p*]: the longest run first, then shorter ones. *)
Fixpoint star_greedy (p : char -> bool) (s : str) (k : str -> option R) : option R :=
  match s with
  | c :: s' =>
    if p c
    then match star_greedy p s' k with
         | Some r => Some r
         | None => k s
         end
    else k s
  | [] => k []
  end.

(** [p*?]: the shortest run first, then longer ones. *)
Fixpoint star_lazy (p : char -> bool) (s : str) (k : str -> option R) : option R :=
  match k s with
  | Some r => Some r
  | None =>
    match s with
    | c :: s' => if p c then star_lazy p s' k else None
    | [] => None
    end
  end.

Definition star (greedy : bool) := if greedy then star_greedy else star_lazy.

Fixpoint times (n : nat) (p : char -> bool) (s : str) (k : str -> option R) : option R :=
  match n with
  | O => k s
  | S n' =>
    match s with
    | c :: s' => if p c then times n' p s' k else None
    | [] => None
    end
  end.

Fixpoint rmatch (r : regex) (s : str) (caps : list str)
         (k : str -> list str -> option R) : option R :=
  match r with
  | Lit l => if startswith l s then k (drop (length l) s) caps else None
  | Cls p =>
    match s with
    | c :: s' => if p c then k s' caps else None
    | [] => None
    end
  | Times n p => times n p s (fun s' => k s' caps)
  | Star g p => star g p s (fun s' => k s' caps)
  | Plus g p =>
    match s with
    | c :: s' => if p c then star g p s' (fun s'' => k s'' caps) else None
    | [] => None
    end
  | Cat r1 r2 => rmatch r1 s caps (fun s' caps' => rmatch r2 s' caps' k)
  | Grp r1 =>
    rmatch r1 s caps
           (fun s' caps' => k s' (caps' ++ [take (length s - length s')%nat s]))
  end.
End Backtracking.

(** [re.match(r, s)]: the groups and the text after the match. *)
Definition re_match (r : regex) (s : str) : option (list str * str) :=
  rmatch r s [] (fun rest caps => Some (caps, rest)).

(** [re.search(r, s)]: the text before the first match, the groups and
    the text after the match. *)
Fixpoint re_search (r : regex) (s : str) : option (str * list str * str) :=
  match re_match r s with
  | Some (caps, rest) => Some ([], caps, rest)
  | None =>
    match s with
    | c :: s' =>
      match re_search r s' with
      | Some (pre, caps, rest) => Some (c :: pre, caps, rest)
      | None => None
      end
    | [] => None
    end
  end.

(** [re.findall(r, s)]: the groups of the successive matches, each search
    starting where the previous match ended (the patterns of the script
    contain a literal, so a match is never empty; after an empty match
    the scan moves one character on). *)
Fixpoint findall_from (fuel : nat) (r : regex) (s : str) : list (list str) :=
  match fuel with
  | O => []
  | S f =>
    match re_search r s with
    | None => []
    | Some (pre, caps, rest) =>
      caps :: (if (length pre + length rest <? length s)%nat
               then findall_from f r rest
               else findall_from f r (drop 1 rest))
    end
  end.
Definition re_findall (r : regex) (s : str) : list (list str) :=
  findall_from (S (length s)) r s.

(** [re.sub(r, repl, s)] for a pattern anchored by [^] (without
    [re.MULTILINE]): the only possible match is the one at the start. *)
Definition re_sub_at_start (r : regex) (repl s : str) : str :=
  match re_match r s with
  | Some (_, rest) => repl ++ rest
  | None => s
  end.

(** The pattern [trace_(\d{8})_(\d{4})_(.+)_([a-f0-9]+)\.md] of [parse_trace_filename]. *)
Definition trace_pattern : regex :=
  Lit (u "trace_") >> Grp (Times 8 is_digit) >> Lit (u "_") >> Grp (Times 4 is_digit)
  >> Lit (u "_") >> Grp (Plus true is_dot) >> Lit (u "_")
  >> Grp (Plus true is_hex_lower) >> Lit (u ".md").

(** The pattern [^## (\d+)\. (.+?) \((.+?)\)], used with [match], which anchors
    it at the start of the line. *)
Definition step_pattern : regex :=
  Lit (u "## ") >> Grp (Plus true is_digit) >> Lit (u ". ") >> Grp (Plus false is_dot)
  >> Lit (u " (") >> Grp (Plus false is_dot) >> Lit (u ")").

(** The pattern [\*\*LLM Response\*\*:\n```text\n(.*?)\n```] with [re.DOTALL]. *)
Definition response_pattern : regex :=
  Lit (u "**LLM Response**:" ++ nl ++ u "```text" ++ nl) >> Grp (Star false is_any)
  >> Lit (nl ++ u "```").

(** The pattern [\*\*LLM Prompt\*\*:.*?(Role:.*?)```] with [re.DOTALL]. *)
Definition prompt_pattern : regex :=
  Lit (u "**LLM Prompt**:") >> Star false is_any
  >> Grp (Lit (u "Role:") >> Star false is_any) >> Lit (u "```").

(** The pattern of the principles: one group around [\d+\. \*\*.*?\*\*:.*]. *)
Definition principle_pattern : regex :=
  Grp (Plus true is_digit >> Lit (u ". **") >> Star false is_dot >> Lit (u "**:")
       >> Star true is_dot).

(** The pattern of the planned items: [- ([a-f0-9]+): ] and a second group
    around [.*]. *)
Definition raw_item_pattern : regex :=
  Lit (u "- ") >> Grp (Plus true is_hex_lower) >> Lit (u ": ") >> Grp (Star true is_dot).

(** The pattern [\*\*LLM Response\*\*:\n```text\n(\[.*?\])\n```] with [re.DOTALL]. *)
Definition order_pattern : regex :=
  Lit (u "**LLM Response**:" ++ nl ++ u "```text" ++ nl)
  >> Grp (Lit (u "[") >> Star false is_any >> Lit (u "]")) >> Lit (nl ++ u "```").

(** The pattern [【新闻素材】\n(.*?)\n【核心要求] with [re.DOTALL]. *)
Definition materials_pattern : regex :=
  Lit (u "【新闻素材】" ++ nl) >> Grp (Star false is_any) >> Lit (nl ++ u "【核心要求").

(** The pattern [^\[.*?\]\s*] of the leading tag. *)
Definition tag_pattern : regex :=
  Lit (u "[") >> Star false is_dot >> Lit (u "]") >> Star true is_space.

(** ** Naive date-times of the [datetime] module *)

Open Scope Z_scope.

(** A naive [datetime.datetime]; the time stamps of the script are whole
    seconds, so the microsecond field is always zero and is left out. *)
Record datetime := mk_datetime {
  year : Z; month : Z; day : Z; hour : Z; minute : Z; second : Z
}.

Definition is_leap (y : Z) : bool :=
  (y mod 4 =? 0) && (negb (y mod 100 =? 0) || (y mod 400 =? 0)).

Definition DAYS_IN_MONTH : list Z := [-1; 31; 28; 31; 30; 31; 30; 31; 31; 30; 31; 30; 31].
Definition DAYS_BEFORE_MONTH : list Z :=
  [-1; 0; 31; 59; 90; 120; 151; 181; 212; 243; 273; 304; 334].

Definition days_before_year (y : Z) : Z :=
  let y := y - 1 in y * 365 + y / 4 - y / 100 + y / 400.

Definition days_in_month (y m : Z) : Z :=
  if (m =? 2) && is_leap y then 29 else nth (Z.to_nat m) DAYS_IN_MONTH (-1).

Definition days_before_month (y m : Z) : Z :=
  nth (Z.to_nat m) DAYS_BEFORE_MONTH (-1) + (if (m >? 2) && is_leap y then 1 else 0).

Definition ymd2ord (y m d : Z) : Z :=
  days_before_year y + days_before_month y m + d.

Definition DI400Y : Z := 146097.
Definition DI100Y : Z := 36524.
Definition DI4Y : Z := 1461.

(** [_ord2ymd]: the proleptic Gregorian date of an ordinal (1 is 0001-01-01). *)
Definition ord2ymd (n : Z) : Z * Z * Z :=
  let n := n - 1 in
  let n400 := n / DI400Y in let n := n mod DI400Y in
  let y := n400 * 400 + 1 in
  let n100 := n / DI100Y in let n := n mod DI100Y in
  let n4 := n / DI4Y in let n := n mod DI4Y in
  let n1 := n / 365 in let n := n mod 365 in
  let y := y + n100 * 100 + n4 * 4 + n1 in
  if (n1 =? 4) || (n100 =? 4) then (y - 1, 12, 31)
  else
    let leapyear := (n1 =? 3) && (negb (n4 =? 24) || (n100 =? 3)) in
    let m := Z.shiftr (n + 50) 5 in
    let preceding :=
      nth (Z.to_nat m) DAYS_BEFORE_MONTH (-1) + (if (m >? 2) && leapyear then 1 else 0) in
    if preceding >? n
    then
      let m := m - 1 in
      let preceding :=
        preceding - (nth (Z.to_nat m) DAYS_IN_MONTH (-1)
                     + (if (m =? 2) && leapyear then 1 else 0)) in
      (y, m, n - preceding + 1)
    else (y, m, n - preceding + 1).

Definition toordinal (d : datetime) : Z := ymd2ord (year d) (month d) (day d).

(** [a > b] on date-times: the comparison of the field tuples. *)
Fixpoint tuple_gt (a b : list Z) : bool :=
  match a, b with
  | x :: a', y :: b' => if x >? y then true else if x <? y then false else tuple_gt a' b'
  | _, _ => false
  end.
Definition fields (d : datetime) : list Z :=
  [year d; month d; day d; hour d; minute d; second d].
Definition dt_gt (a b : datetime) : bool := tuple_gt (fields a) (fields b).

(** [(a - b).total_seconds()] *)
Definition seconds_of_day (d : datetime) : Z := second d + minute d * 60 + hour d * 3600.
Definition sub_total_seconds (a b : datetime) : Z :=
  (toordinal a - toordinal b) * 86400 + (seconds_of_day a - seconds_of_day b).

(** [str(d)]: [YYYY-MM-DD HH:MM:SS] *)
Definition str_of_datetime (d : datetime) : str :=
  zero_pad 4 (Z.to_N (year d)) ++ u "-" ++ zero_pad 2 (Z.to_N (month d)) ++ u "-"
  ++ zero_pad 2 (Z.to_N (day d)) ++ u " " ++ zero_pad 2 (Z.to_N (hour d)) ++ u ":"
  ++ zero_pad 2 (Z.to_N (minute d)) ++ u ":" ++ zero_pad 2 (Z.to_N (second d)).

(** The calendar check made by the constructor of [datetime]. *)
Definition valid_date (y m d : Z) : bool :=
  (1 <=? y) && (y <=? 9999) && (1 <=? m) && (m <=? 12) && (1 <=? d) && (d <=? days_in_month y m).

(** [datetime.strptime] on the date and the time joined by a space, with
    the format [%Y%m%d %H%M], for a
    [date_str] of eight digits and a [time_str] of four digits, as
    [parse_trace_filename] calls it.  The format then reads four digits
    of year and two digits for each other field: the regular expression
    of the format accepts months 01..12, days 01..31, hours 00..23 and
    minutes 00..59, and the constructor of [datetime] refuses the year 0
    and a day beyond the end of the month; each refusal is a
    [ValueError]. *)
Definition strptime (date_str time_str : str) : result datetime :=
  let y := Z.of_N (int_of_digits (take 4 date_str)) in
  let m := Z.of_N (int_of_digits (take 2 (drop 4 date_str))) in
  let d := Z.of_N (int_of_digits (drop 6 date_str)) in
  let H := Z.of_N (int_of_digits (take 2 time_str)) in
  let M := Z.of_N (int_of_digits (drop 2 time_str)) in
  if (1 <=? m) && (m <=? 12) && (1 <=? d) && (d <=? 31) && (H <=? 23) && (M <=? 59)
  then if valid_date y m d
       then Ok (mk_datetime y m d H M 0)
       else Raise ValueError
  else Raise ValueError.

Section LocalTime.
(** The local time zone of the machine: the offset from UTC, in
    seconds, in force at an instant given in epoch seconds. *)
Variable utcoffset : Z -> Z.

(** [datetime.fromtimestamp(ts)] for a whole number of seconds; the
    ordinal of 1970-01-01 is 719163 and that of 9999-12-31 is 3652059. *)
Definition fromtimestamp (ts : Z) : result datetime :=
  let local := ts + utcoffset ts in
  let ordinal := 719163 + local / 86400 in
  let rest := local mod 86400 in
  if (1 <=? ordinal) && (ordinal <=? 3652059)
  then let '(y, m, d) := ord2ymd ordinal in
       Ok (mk_datetime y m d (rest / 3600) (rest mod 3600 / 60) (rest mod 60))
  else Raise TimestampOutOfRange.
End LocalTime.

(** ** FilenameCodec: [parse_trace_filename] *)

(** [os.path.basename] *)
Definition basename (p : str) : str := default [] (last (split 47%N p)).

Definition parse_trace_filename (filename : str) : result (option (datetime * str * str)) :=
  match re_match trace_pattern (basename filename) with
  | Some ([date_str; time_str; category; trace_id], _) =>
    match strptime date_str time_str with
    | Ok dt => Ok (Some (dt, category, trace_id))
    | Raise e => Raise e
    end
  | _ => Ok None
  end.

(** ** TraceMatcher: [find_matching_trace] *)

(** An item of the catalog: a JSON object whose keys may be missing. *)
Record Item := mk_Item {
  item_id : option str;
  title : option str;
  category : option str;
  publish_time : option Z;
  duration_sec : option Z
}.

Fixpoint str_eqb (a b : str) : bool :=
  match a, b with
  | [], [] => true
  | x :: a', y :: b' => (x =? y)%N && str_eqb a' b'
  | _, _ => false
  end.

(** [candidates.sort(key=lambda x: x[0])]: [list.sort] is stable, that
    is, it is the insertion sort by key that keeps equal keys in their
    order. *)
Fixpoint insert_by_key (x : Z * str) (l : list (Z * str)) : list (Z * str) :=
  match l with
  | [] => [x]
  | y :: l' => if x.1 <=? y.1 then x :: l else y :: insert_by_key x l'
  end.
Definition sort_by_key (l : list (Z * str)) : list (Z * str) :=
  foldr insert_by_key [] l.

Section TraceMatcher.
(** The local time zone (see [fromtimestamp]) and [str.lower], the case
    mapping of Unicode. *)
Variable utcoffset : Z -> Z.
Variable lower : str -> str.

(** The loop over the trace files: [candidates] is the list built so far. *)
Fixpoint scan_traces (target_category : str) (publish_dt : datetime)
         (trace_files : list str) (candidates : list (Z * str)) : result (list (Z * str)) :=
  match trace_files with
  | [] => Ok candidates
  | f :: fs =>
    match parse_trace_filename f with
    | Raise e => Raise e
    | Ok None => scan_traces target_category publish_dt fs candidates
    | Ok (Some (dt, category, tid)) =>
      if negb (str_eqb (lower category) (lower target_category))
      then scan_traces target_category publish_dt fs candidates
      else if dt_gt dt publish_dt
      then scan_traces target_category publish_dt fs candidates
      else
        let delta := sub_total_seconds publish_dt dt in
        if delta >? 3600
        then scan_traces target_category publish_dt fs candidates
        else scan_traces target_category publish_dt fs (candidates ++ [(delta, f)])
    end
  end.


(** [find_matching_trace(target_item)]; [trace_files] is what
    [glob.glob] lists in the trace directory.  The result is the text
    printed and the value returned or the exception raised. *)
Definition find_matching_trace (trace_files : list str) (target_item : Item)
  : list str * result (option str) :=
  let target_category := replace (u " ") (u "_") (default [] (category target_item)) in
  match publish_time target_item with
  | None => ([u "Item has no publish_time."], Ok None)
  | Some publish_ts =>
    if publish_ts =? 0 then ([u "Item has no publish_time."], Ok None)
    else
      match fromtimestamp utcoffset publish_ts with
      | Raise e => ([], Raise e)
      | Ok publish_dt =>
        let out :=
          [u "Searching for trace matching: Category='" ++ target_category
           ++ u "', PublishTime=" ++ str_of_datetime publish_dt] in
        match scan_traces target_category publish_dt trace_files [] with
        | Raise e => (out, Raise e)
        | Ok candidates =>
          match sort_by_key candidates with
          | [] => (out, Ok None)
          | c :: _ => (out, Ok (Some c.2))
          end
        end
      end
  end.
End TraceMatcher.


(** ** StepSegmenter: the first loop of [generate_story_report] *)

Record Step := mk_Step {
  step_id : str;
  step_name : str;
  step_time : str;
  content : list str
}.

(** [current_step['content'].append(line)] *)
Definition append_line (s : Step) (line : str) : Step :=
  mk_Step (step_id s) (step_name s) (step_time s) (content s ++ [line]).

(** [if current_step: steps.append(current_step)] *)
Definition close_step (steps : list Step) (current_step : option Step) : list Step :=
  match current_step with
  | Some s => steps ++ [s]
  | None => steps
  end.

(** One turn of the loop over the lines, on the state
    [(steps, current_step)]. *)
Definition segment_line (st : list Step * option Step) (line : str)
  : list Step * option Step :=
  let '(steps, current_step) := st in
  match re_match step_pattern line with
  | Some (groups, _) =>
    (close_step steps current_step,
     Some (mk_Step (nth 0 groups []) (strip (nth 1 groups [])) (nth 2 groups []) []))
  | None =>
    match current_step with
    | Some s => (steps, Some (append_line s line))
    | None => (steps, None)
    end
  end.

Definition segment (trace_content : str) : list Step :=
  let '(steps, current_step) :=
    fold_left segment_line (split NL trace_content) ([], None) in
  close_step steps current_step.

(** [re.search(...).group(1)] of the response block of a step body. *)
Definition group1 (m : option (str * list str * str)) : option str :=
  match m with
  | Some (_, groups, _) => Some (nth 0 groups [])
  | None => None
  end.

(** ** Materials: the bullet list of a writer prompt *)

Record MaterialEntry := mk_MaterialEntry {
  title_line : str;
  summary : str;
  source : str
}.

Definition SUMMARY_LABEL : str := u "摘要:".
Definition SOURCE_LABEL : str := u "来源:".

(** The branches that add a continuation line to [current_item]. *)
Definition extend_item (it : MaterialEntry) (line : str) : MaterialEntry :=
  if startswith SUMMARY_LABEL line
  then mk_MaterialEntry (title_line it)
         (summary it ++ strip (replace SUMMARY_LABEL [] line)) (source it)
  else if startswith SOURCE_LABEL line
  then mk_MaterialEntry (title_line it) (summary it)
         (source it ++ strip (replace SOURCE_LABEL [] line))
  else mk_MaterialEntry (title_line it) (summary it ++ u " " ++ line) (source it).

(** [if current_item: raw_items.append(current_item)] *)
Definition close_item (raw_items : list MaterialEntry) (current_item : option MaterialEntry)
  : list MaterialEntry :=
  match current_item with
  | Some it => raw_items ++ [it]
  | None => raw_items
  end.

(** One turn of the loop over the lines of the materials block, on the
    state [(raw_items, current_item)]; the line is stripped first and a
    blank line is skipped. *)
Definition material_line (st : list MaterialEntry * option MaterialEntry) (line : str)
  : list MaterialEntry * option MaterialEntry :=
  let '(raw_items, current_item) := st in
  let line := strip line in
  match line with
  | [] => st
  | _ :: _ =>
    if startswith (u "- ") line
    then (close_item raw_items current_item, Some (mk_MaterialEntry (drop 2 line) [] []))
    else match current_item with
         | Some it => (raw_items, Some (extend_item it line))
         | None => st
         end
  end.

Definition parse_materials (materials_raw : str) : list MaterialEntry :=
  let '(raw_items, current_item) :=
    fold_left material_line (split NL (strip materials_raw)) ([], None) in
  close_item raw_items current_item.

(** ** SourceReconciler *)

(** A source record of the catalog: a JSON object whose keys may be
    missing. *)
Record SourceRecord := mk_SourceRecord {
  source_title : option str;
  source_summary : option str;
  source_url : option str
}.

(** [re.sub] of the leading tag by the empty string, then [strip()]. *)
Definition clean_title (title : str) : str := strip (re_sub_at_start tag_pattern [] title).

(** The test of the inner loop over [sources]. *)
Definition source_matches (title : str) (ns : SourceRecord) : bool :=
  let ns_title := default [] (source_title ns) in
  negb (str_eqb ns_title [])
  && (contains ns_title title || contains (clean_title title) ns_title
      || contains title ns_title).

(** The inner loop: the first source that passes the test, if any. *)
Fixpoint find_source (title : str) (sources : list SourceRecord) : option SourceRecord :=
  match sources with
  | [] => None
  | ns :: rest => if source_matches title ns then Some ns else find_source title rest
  end.

(** [final_summary] of a matched entry. *)
Definition final_summary (matched_source : SourceRecord) (it : MaterialEntry) : str :=
  let db_summary := replace nl (u " ") (default [] (source_summary matched_source)) in
  let trace_summary := summary it in
  if negb (str_eqb db_summary []) && (length trace_summary <? length db_summary)%nat
  then db_summary
  else trace_summary.

(** An f-string field holding a value that may be [None]. *)
Definition fmt_str (o : option str) : str := default (u "None") o.
Definition fmt_int (o : option Z) : str :=
  match o with
  | Some z => str_of_Z z
  | None => u "None"
  end.

(** The text that one material entry adds to the report. *)
Definition render_entry (sources : list SourceRecord) (it : MaterialEntry) : str :=
  let title := title_line it in
  match find_source title sources with
  | Some matched_source =>
    u "- 🟢 **" ++ fmt_str (source_title matched_source) ++ u "**" ++ nl
    ++ u "  > " ++ final_summary matched_source it ++ nl ++ nl
    ++ u "  *Source: " ++ fmt_str (source_url matched_source) ++ u "*" ++ nl
  | None =>
    u "- ⚪ **" ++ title ++ u "** *(From Log)*" ++ nl
    ++ (match summary it with
        | [] => []
        | _ :: _ => u "  > " ++ summary it ++ nl ++ nl
        end)
    ++ (match source it with
        | [] => []
        | _ :: _ => u "  *Source: " ++ source it ++ u "*" ++ nl
        end)
  end.

(** ** ReportBuilder: [generate_story_report] *)

(** What [json.loads] gives for one element of the planned order. *)
Inductive json_elem :=
| JString (s : str)      (* a string *)
| JScalar (text : str)   (* a number, [true], [false] or [null]; [text] is its [str()] *)
| JContainer.            (* an array or an object, which cannot be a dictionary key *)

Definition is_writer_step (s : Step) : bool :=
  contains (u "Segment Writer Result") (step_name s).
Definition is_plan_step (s : Step) : bool :=
  contains (u "Plan Episode Flow") (step_name s).

(** The lines of the body joined by newlines. *)
Definition content_str (s : Step) : str := join nl (content s).

(** The response block of a step, stripped, when there is one. *)
Definition response_of (s : Step) : option str :=
  match group1 (re_search response_pattern (content_str s)) with
  | Some g => Some (strip g)
  | None => None
  end.

(** 1. Header. *)
Definition header_block (it : Item) (publish_dt : datetime) : str :=
  u "# 🎙️ FreshLoop Story Journey: " ++ fmt_str (title it) ++ nl ++ nl
  ++ u "- **Category**: " ++ fmt_str (category it) ++ nl
  ++ u "- **Publish Time**: " ++ str_of_datetime publish_dt ++ nl
  ++ u "- **Duration**: " ++ fmt_int (duration_sec it) ++ u "s" ++ nl
  ++ u "- **Nexus ID**: `" ++ fmt_str (item_id it) ++ u "`" ++ nl ++ nl
  ++ u "---" ++ nl ++ nl.

(** 2. The final script. *)
Definition script_segments (steps : list Step) : list str :=
  omap (fun s => if is_writer_step s then response_of s else None) steps.

Fixpoint render_segments (i : nat) (segs : list str) : str :=
  match segs with
  | [] => []
  | seg :: rest =>
    u "### Segment " ++ str_of_nat (i + 1) ++ nl ++ nl ++ seg ++ nl ++ nl
    ++ render_segments (S i) rest
  end.

Definition chapter1 (steps : list Step) : str :=
  u "## 🎬 Chapter 1: The Final Script" ++ nl ++ nl
  ++ u "> This is the final audio content delivered to the user." ++ nl ++ nl
  ++ (match script_segments steps with
      | [] => u "*No script segments found in trace log.*" ++ nl ++ nl
      | segs => render_segments 0 segs
      end)
  ++ u "---" ++ nl ++ nl.

(** 3. The blueprint. *)
Definition build_item_map (raw_items : list (list str)) : gmap (list N) (list N) :=
  fold_left (fun (m : gmap (list N) (list N)) g => <[nth 0 g [] := strip (nth 1 g [])]> m)
            raw_items ∅.

(** The loop over the planned order, inside the [try]: an element that
    cannot be a dictionary key raises in [item_map.get], and the
    [except] clause then adds its line to what was already written. *)
Fixpoint render_order (item_map : gmap (list N) (list N)) (i : nat) (order : list json_elem)
  : str :=
  match order with
  | [] => []
  | JContainer :: _ => u "Failed to parse planning JSON." ++ nl
  | JString short_id :: rest =>
    str_of_nat (i + 1) ++ u ". **" ++ default (u "Unknown Item") (item_map !! short_id)
    ++ u "** (`" ++ short_id ++ u "`)" ++ nl ++ render_order item_map (S i) rest
  | JScalar text :: rest =>
    str_of_nat (i + 1) ++ u ". **" ++ u "Unknown Item"
    ++ u "** (`" ++ text ++ u "`)" ++ nl ++ render_order item_map (S i) rest
  end.

Section Report.
Variable utcoffset : Z -> Z.
(** [json.loads] on a text that opens with a bracket: [None] when it
    raises, else the elements of the array it returns. *)
Variable json_loads : str -> option (list json_elem).

(** The principles and the id-to-title map read from the prompt of the
    plan step. *)
Definition prompt_part (content_str : str) : str * gmap (list N) (list N) :=
  match re_search prompt_pattern content_str with
  | Some (_, groups, _) =>
    let prompt_text := nth 0 groups [] in
    let principles := map (fun g => nth 0 g []) (re_findall principle_pattern prompt_text) in
    (match principles with
     | [] => []
     | _ :: _ =>
       u "### Core Principles Used:" ++ nl
       ++ join nl (map (fun p => u "- " ++ p) principles) ++ nl ++ nl
     end,
     build_item_map (re_findall raw_item_pattern prompt_text))
  | None => ([], ∅)
  end.

(** The planned sequence read from the response of the plan step. *)
Definition order_text (item_map : gmap (list N) (list N)) (content_str : str) : str :=
  match re_search order_pattern content_str with
  | Some (_, groups, _) =>
    match json_loads (nth 0 groups []) with
    | Some order => u "### Planned Sequence:" ++ nl ++ render_order item_map 0 order
    | None => u "Failed to parse planning JSON." ++ nl
    end
  | None => []
  end.

Definition plan_text (plan_step : Step) : str :=
  let content_str := content_str plan_step in
  let '(principles_text, item_map) := prompt_part content_str in
  principles_text ++ order_text item_map content_str.

Definition chapter2 (steps : list Step) : str :=
  u "## 📐 Chapter 2: The Blueprint (Planning)" ++ nl ++ nl
  ++ u "> How the AI decided to arrange the stories." ++ nl ++ nl
  ++ (match list_find is_plan_step steps with
      | Some (_, plan_step) => plan_text plan_step
      | None => u "*Planning step not found in trace.*" ++ nl
      end)
  ++ nl ++ u "---" ++ nl ++ nl.

(** 4. The production log. *)
Definition materials_text (sources : list SourceRecord) (content_str : str) : str :=
  match re_search materials_pattern content_str with
  | Some (_, groups, _) =>
    let materials_raw := nth 0 groups [] in
    u "**Input Sources:**" ++ nl
    ++ concat (map (render_entry sources) (parse_materials materials_raw))
    ++ nl
  | None => []
  end.

(** What follows the heading of the final draft. *)
Definition draft_text (content_str : str) : str :=
  match group1 (re_search response_pattern content_str) with
  | Some g => u "```text" ++ nl ++ strip g ++ nl ++ u "```" ++ nl
  | None => []
  end.

Definition production (sources : list SourceRecord) (i : nat) (step : Step) : str :=
  let content_str := content_str step in
  u "### Segment " ++ str_of_nat (i + 1) ++ u " Production" ++ nl
  ++ materials_text sources content_str
  ++ u "**LLM Output (Final Draft)**:" ++ nl
  ++ draft_text content_str
  ++ nl.

Fixpoint render_productions (sources : list SourceRecord) (i : nat)
         (writer_steps : list Step) : str :=
  match writer_steps with
  | [] => []
  | step :: rest => production sources i step ++ render_productions sources (S i) rest
  end.

Definition chapter3 (sources : list SourceRecord) (steps : list Step) : str :=
  u "## 🏭 Chapter 3: Production Log (Deep Dive)" ++ nl ++ nl
  ++ u "> Detailed view of sources and transformation for each segment." ++ nl ++ nl
  ++ render_productions sources 0 (List.filter is_writer_step steps).

Definition generate_story_report (it : Item) (trace_content : str)
           (sources : list SourceRecord) : result str :=
  let steps := segment trace_content in
  match fromtimestamp utcoffset (default 0 (publish_time it)) with
  | Raise e => Raise e
  | Ok publish_dt =>
    Ok (header_block it publish_dt ++ chapter1 steps ++ chapter2 steps
        ++ chapter3 sources steps)
  end.
End Report.

(** ** Definitions used to state the properties *)

(** The three filters of the matcher on one trace file: the gap of the
    file when it passes them. *)
Definition eligible_gap (lower : str -> str) (target_category : str)
           (publish_dt : datetime) (f : str) : option Z :=
  match parse_trace_filename f with
  | Ok (Some (dt, category, _)) =>
    if str_eqb (lower category) (lower target_category)
       && negb (dt_gt dt publish_dt)
       && (sub_total_seconds publish_dt dt <=? 3600)
    then Some (sub_total_seconds publish_dt dt)
    else None
  | _ => None
  end.

(** Decoding the file name raises no exception. *)
Definition decodes (f : str) : Prop := forall e, parse_trace_filename f <> Raise e.

(** The category the matcher looks for. *)
Definition target_category_of (it : Item) : str :=
  replace (u " ") (u "_") (default [] (category it)).

(** The first element of least key. *)
Fixpoint first_min (l : list (Z * str)) : option (Z * str) :=
  match l with
  | [] => None
  | x :: l' =>
    match first_min l' with
    | None => Some x
    | Some y => if x.1 <=? y.1 then Some x else Some y
    end
  end.


(** The files that pass the filters, with their gaps, in the order of the
    listing. *)
Definition survivors (lower : str -> str) (target_category : str)
           (publish_dt : datetime) (files : list str) : list (Z * str) :=
  omap (fun f => match eligible_gap lower target_category publish_dt f with
                 | Some g => Some (g, f)
                 | None => None
                 end) files.

(** The texts matched by a pattern, with the groups they capture. *)
Inductive matches : regex -> str -> list str -> Prop :=
| M_Lit l : matches (Lit l) l []
| M_Cls (p : char -> bool) c : p c = true -> matches (Cls p) [c] []
| M_Times n (p : char -> bool) w :
    length w = n -> forallb p w = true -> matches (Times n p) w []
| M_Star g (p : char -> bool) w : forallb p w = true -> matches (Star g p) w []
| M_Plus g (p : char -> bool) w :
    w <> [] -> forallb p w = true -> matches (Plus g p) w []
| M_Cat r1 r2 w1 w2 c1 c2 :
    matches r1 w1 c1 -> matches r2 w2 c2 -> matches (Cat r1 r2) (w1 ++ w2) (c1 ++ c2)
| M_Grp r w c : matches r w c -> matches (Grp r) w (c ++ [w]).

(** The grammar of a trace file name:
    [trace_<date>_<time>_<category>_<id>.md]. *)
Definition trace_name (date time cat tid : str) : str :=
  u "trace_" ++ date ++ u "_" ++ time ++ u "_" ++ cat ++ u "_" ++ tid ++ u ".md".

Record trace_fields (date time cat tid : str) : Prop := mk_trace_fields {
  date_len : length date = 8%nat;
  date_digits : forallb is_digit date = true;
  time_len : length time = 4%nat;
  time_digits : forallb is_digit time = true;
  cat_nonempty : cat <> [];
  cat_chars : forallb is_dot cat = true;
  tid_nonempty : tid <> [];
  tid_hex : forallb is_hex_lower tid = true
}.

(** The digits of a date and of a time denote a moment of the calendar. *)
Definition valid_stamp (date time : str) : Prop :=
  let y := Z.of_N (int_of_digits (take 4 date)) in
  let m := Z.of_N (int_of_digits (take 2 (drop 4 date))) in
  let d := Z.of_N (int_of_digits (drop 6 date)) in
  let H := Z.of_N (int_of_digits (take 2 time)) in
  let M := Z.of_N (int_of_digits (drop 2 time)) in
  1 <= y /\ 1 <= m <= 12 /\ 1 <= d <= days_in_month y m /\ H <= 23 /\ M <= 59.

(** Re-encoding a decoded time stamp: [YYYYMMDD] and [HHMM]. *)
Definition encode_date (dt : datetime) : str :=
  zero_pad 4 (Z.to_N (year dt)) ++ zero_pad 2 (Z.to_N (month dt))
  ++ zero_pad 2 (Z.to_N (day dt)).
Definition encode_time (dt : datetime) : str :=
  zero_pad 2 (Z.to_N (hour dt)) ++ zero_pad 2 (Z.to_N (minute dt)).

(** A header line, and the step that a header opens, with its body. *)
Definition is_header (line : str) : bool :=
  match re_match step_pattern line with
  | Some _ => true
  | None => false
  end.

(** The lines of a list of blocks, each a head line and its body. *)
Definition lines_of (blocks : list (str * list str)) : list str :=
  concat (map (fun b : str * list str => b.1 :: b.2) blocks).

(** Blocks whose heads satisfy [h] and whose bodies hold no line that
    does. *)
Definition blocks_of (h : str -> bool) (blocks : list (str * list str)) : Prop :=
  Forall (fun b : str * list str =>
            h b.1 = true /\ Forall (fun l => h l = false) b.2) blocks.

(** The lines that the loop of the materials sees: stripped, blank ones
    dropped. *)
Definition material_lines (materials_raw : str) : list str :=
  List.filter (fun l => negb (str_eqb l [])) (map strip (split NL (strip materials_raw))).

Definition is_bullet (line : str) : bool := startswith (u "- ") line.

(** The entry of a bullet and its continuation lines. *)
Definition entry_of (block : str * list str) : MaterialEntry :=
  fold_left extend_item block.2 (mk_MaterialEntry (drop 2 block.1) [] []).


(** Newlines flattened to spaces. *)
Definition flatten_newlines (s : str) : str :=
  map (fun c => if (c =? NL)%N then 32%N else c) s.


(** One turn of the loop of the materials on a line that is already
    stripped and not blank. *)
Definition material_step (st : list MaterialEntry * option MaterialEntry) (line : str)
  : list MaterialEntry * option MaterialEntry :=
  if is_bullet line
  then (close_item st.1 st.2, Some (mk_MaterialEntry (drop 2 line) [] []))
  else match st.2 with
       | Some it => (st.1, Some (extend_item it line))
       | None => st
       end.

Definition close_items (st : list MaterialEntry * option MaterialEntry)
  : list MaterialEntry :=
  close_item st.1 st.2.

(** The calendar of [ord2ymd], for its proof. *)

(** The month and the day of the [n]-th day, from 0, of a year, as
    [ord2ymd] computes them. *)
Definition month_day (leapyear : bool) (n : Z) : Z * Z :=
  let m := Z.shiftr (n + 50) 5 in
  let preceding :=
    nth (Z.to_nat m) DAYS_BEFORE_MONTH (-1) + (if (m >? 2) && leapyear then 1 else 0) in
  if preceding >? n
  then
    let m := m - 1 in
    let preceding :=
      preceding - (nth (Z.to_nat m) DAYS_IN_MONTH (-1)
                   + (if (m =? 2) && leapyear then 1 else 0)) in
    (m, n - preceding + 1)
  else (m, n - preceding + 1).

Definition month_day_ok (leapyear : bool) (n : Z) : bool :=
  let '(m, d) := month_day leapyear n in
  (1 <=? m) && (m <=? 12) && (1 <=? d)
  && (d <=? (if (m =? 2) && leapyear then 29 else nth (Z.to_nat m) DAYS_IN_MONTH (-1)))
  && (nth (Z.to_nat m) DAYS_BEFORE_MONTH (-1) + (if (m >? 2) && leapyear then 1 else 0) + d
      =? n + 1).

(** A date-time whose fields are those of a moment of the calendar, and
    its position on the line of the seconds, counted from 1970-01-01
    00:00:00. *)
Definition valid_datetime (d : datetime) : Prop :=
  1 <= year d /\ 1 <= month d <= 12 /\ 1 <= day d <= days_in_month (year d) (month d)
  /\ 0 <= hour d <= 23 /\ 0 <= minute d <= 59 /\ 0 <= second d <= 59.

Definition epoch_seconds (d : datetime) : Z :=
  (toordinal d - 719163) * 86400 + seconds_of_day d.


(** * Further definitions *)

(** ** The selection of [main] *)

Section Selection.
(** [int(s)] for a stripped text that is not empty; [None] stands for
    [ValueError]. *)
Variable int : str -> option Z.

(** [items[idx]] for a list; [None] stands for [IndexError]. *)
Definition getitem {A} (items : list A) (idx : Z) : option A :=
  let n := Z.of_nat (length items) in
  let i := if idx <? 0 then idx + n else idx in
  if (i <? 0) || (n <=? i) then None else items !! Z.to_nat i.

(** The [try] block of [main]: [line] is what [input] returns; [None]
    stands for the branch that prints [Invalid selection.] and exits. *)
Definition select_item (items : list Item) (line : str) : option Item :=
  let selection := strip line in
  match (match selection with
         | [] => Some 0
         | _ :: _ => int selection
         end) with
  | Some idx => getitem items idx
  | None => None
  end.
End Selection.


(** * Properties *)

(** ** Sanity checks of the library models *)

Example u_ascii : u "trace_" = [116; 114; 97; 99; 101; 95]%N.
Proof. reflexivity. Qed.
Example u_cjk : u "【新闻素材】" = [12304; 26032; 38395; 32032; 26448; 12305]%N.
Proof. reflexivity. Qed.
Example split_ex : split NL (u "a
b
") = [u "a"; u "b"; u ""].
Proof. reflexivity. Qed.
Example replace_ex : replace (u "ab") (u "X") (u "cababab3") = u "cXXX3".
Proof. reflexivity. Qed.
Example str_of_ex : str_of_nat 0 = u "0" /\ str_of_nat 120 = u "120" /\ str_of_Z (-45) = u "-45".
Proof. repeat split; reflexivity. Qed.
Example strip_ex : strip (u "  - a b  ") = u "- a b".
Proof. reflexivity. Qed.
Example trace_pattern_ex :
  re_match trace_pattern (u "trace_20260107_1229_AI_News_86eafa6b.md")
  = Some ([u "20260107"; u "1229"; u "AI_News"; u "86eafa6b"], []).
Proof. reflexivity. Qed.
Example step_pattern_ex :
  re_match step_pattern (u "## 21. Plan Episode Flow (12:44:59)")
  = Some ([u "21"; u "Plan Episode Flow"; u "12:44:59"], []).
Proof. reflexivity. Qed.
Example principle_ex :
  re_findall principle_pattern (u "x 1. **A**: be brief
2. **B**: be kind
- ab12: t") = [[u "1. **A**: be brief"]; [u "2. **B**: be kind"]].
Proof. reflexivity. Qed.
Example tag_ex : re_sub_at_start tag_pattern [] (u "[AI]  Title [x]") = u "Title [x]".
Proof. reflexivity. Qed.
Example ord2ymd_ex : ord2ymd 719163 = (1970, 1, 1) /\ ymd2ord 1970 1 1 = 719163
                     /\ ymd2ord 9999 12 31 = 3652059 /\ ord2ymd 3652059 = (9999, 12, 31)
                     /\ ord2ymd 738945 = (2024, 2, 29).
Proof. repeat split; reflexivity. Qed.
Example parse_ex :
  parse_trace_filename (u "/home/x/.freshloop/logs/traces/trace_20260107_1229_AI_86eafa6b.md")
  = Ok (Some (mk_datetime 2026 1 7 12 29 0, u "AI", u "86eafa6b")).
Proof. reflexivity. Qed.
Example parse_bad : parse_trace_filename (u "trace_20261301_1229_AI_86eafa6b.md") = Raise ValueError.
Proof. reflexivity. Qed.
Example fromtimestamp_ex :
  fromtimestamp (fun _ => 0) 1767788940 = Ok (mk_datetime 2026 1 7 12 29 0).
Proof. reflexivity. Qed.
Example find_ex :
  find_matching_trace (fun _ => 0) ascii_lower
    [u "trace_20260107_1229_AI_News_86eafa6b.md"; u "trace_20260107_1219_ai_news_aa.md";
     u "trace_20260107_1229_AI_News_bb.md"; u "trace_20260107_1129_AI_News_cc.md"]
    (mk_Item None None (Some (u "AI News")) (Some 1767788940) None)
  = ([u "Searching for trace matching: Category='AI_News', PublishTime=2026-01-07 12:29:00"],
     Ok (Some (u "trace_20260107_1229_AI_News_86eafa6b.md"))).
Proof. vm_compute. reflexivity. Qed.

(** ** Strings *)

Lemma str_eqb_eq (a b : str) : str_eqb a b = true <-> a = b.
Proof.
  revert b; induction a as [|x a IH]; intros [|y b]; simpl; try (split; congruence).
  rewrite andb_true_iff, N.eqb_eq, IH. split.
  - intros [-> ->]; reflexivity.
  - intros [= -> ->]; split; reflexivity.
Qed.

Lemma str_eqb_nil (a : str) : str_eqb a [] = true <-> a = [].
Proof. apply str_eqb_eq. Qed.

Lemma startswith_spec (p s : str) : startswith p s = true <-> exists t, s = p ++ t.
Proof.
  revert s; induction p as [|a p IH]; intros s; simpl.
  - split; [intros _; exists s; reflexivity | reflexivity].
  - destruct s as [|b s].
    + split; [discriminate | intros [t Ht]; discriminate].
    + rewrite andb_true_iff, N.eqb_eq, IH. split.
      * intros [-> [t ->]]. exists t; reflexivity.
      * intros [t [= -> ->]]. split; [reflexivity | exists t; reflexivity].
Qed.

Lemma startswith_app (p t : str) : startswith p (p ++ t) = true.
Proof. apply startswith_spec. exists t; reflexivity. Qed.

Lemma contains_spec (p s : str) : contains p s = true <-> exists a b, s = a ++ p ++ b.
Proof.
  induction s as [|c s IH]; simpl.
  - rewrite orb_false_r, startswith_spec. split.
    + intros [t Ht]. exists [], t. exact Ht.
    + intros (a & b & H). destruct a; [exists b; exact H | discriminate].
  - rewrite orb_true_iff, startswith_spec, IH. split.
    + intros [[t Ht] | (a & b & ->)].
      * exists [], t. exact Ht.
      * exists (c :: a), b. reflexivity.
    + intros (a & b & H). destruct a as [|c' a].
      * left. exists b. exact H.
      * right. injection H as -> ->. exists a, b. reflexivity.
Qed.

(** ** The stable sort and its head *)

(** [sort_by_key] is the stable sort: its result is ordered by key, and
    for every key the elements of that key come out in the order in
    which they came in (so that it is also a permutation).  These
    properties determine the result, whatever the algorithm of
    [list.sort]. *)
Lemma insert_by_key_sorted x l :
  Sorted (fun a b : Z * list N => a.1 <= b.1) l ->
  Sorted (fun a b : Z * list N => a.1 <= b.1) (insert_by_key x l).
Proof.
  induction 1 as [|y l Hs IH Hhd]; simpl.
  - repeat constructor.
  - destruct (Z.leb_spec x.1 y.1).
    + constructor; [constructor; assumption|]. constructor. assumption.
    + constructor; [exact IH|].
      destruct l as [|z l]; simpl.
      * constructor. lia.
      * destruct (x.1 <=? z.1); constructor; [lia|].
        inversion Hhd; subst. assumption.
Qed.

Lemma sort_by_key_sorted l :
  Sorted (fun a b : Z * list N => a.1 <= b.1) (sort_by_key l).
Proof.
  induction l as [|x l IH]; simpl; [constructor|].
  apply insert_by_key_sorted. exact IH.
Qed.

Lemma insert_by_key_stable k x l :
  List.filter (fun y : Z * list N => y.1 =? k) (insert_by_key x l)
  = List.filter (fun y : Z * list N => y.1 =? k) (x :: l).
Proof.
  induction l as [|y l IH]; [reflexivity|].
  cbn [insert_by_key]. destruct (Z.leb_spec x.1 y.1); [reflexivity|].
  cbn [List.filter] in *. rewrite IH.
  destruct (Z.eqb_spec x.1 k), (Z.eqb_spec y.1 k); try reflexivity. lia.
Qed.

Lemma sort_by_key_stable k l :
  List.filter (fun y : Z * list N => y.1 =? k) (sort_by_key l)
  = List.filter (fun y : Z * list N => y.1 =? k) l.
Proof.
  induction l as [|x l IH]; [reflexivity|].
  cbn [sort_by_key foldr]. fold (sort_by_key l).
  rewrite insert_by_key_stable. cbn [List.filter]. rewrite IH. reflexivity.
Qed.

Lemma head_insert_by_key x l :
  head (insert_by_key x l)
  = match head l with
    | None => Some x
    | Some y => if x.1 <=? y.1 then Some x else Some y
    end.
Proof. destruct l as [|y l]; simpl; [reflexivity|]. destruct (x.1 <=? y.1); reflexivity. Qed.

Lemma head_sort_by_key l : head (sort_by_key l) = first_min l.
Proof.
  induction l as [|x l IH]; simpl; [reflexivity|].
  rewrite head_insert_by_key. fold (sort_by_key l). rewrite IH. reflexivity.
Qed.

Lemma first_min_some l : l <> [] -> exists y, first_min l = Some y.
Proof.
  destruct l as [|a l]; [congruence|]. intros _. simpl.
  destruct (first_min l) as [y|]; [destruct (a.1 <=? y.1)|]; eauto.
Qed.

Lemma first_min_elem l y : first_min l = Some y -> y ∈ l.
Proof.
  revert y; induction l as [|a l IH]; simpl; intros y; [discriminate|].
  destruct (first_min l) as [z|] eqn:E.
  - destruct (a.1 <=? z.1); intros [= <-].
    + apply list_elem_of_here.
    + apply list_elem_of_further, IH; reflexivity.
  - intros [= <-]. apply list_elem_of_here.
Qed.


(** ** The calendar *)

Lemma is_leap_decomp a b c e :
  0 <= b <= 3 -> 0 <= c <= 24 -> 0 <= e <= 3 ->
  is_leap (400 * a + 100 * b + 4 * c + e + 1)
  = (e =? 3) && (negb (c =? 24) || (b =? 3)).
Proof.
  intros Hb Hc He. unfold is_leap.
  destruct (Z.eqb_spec e 3), (Z.eqb_spec c 24), (Z.eqb_spec b 3);
    repeat match goal with
           | |- context [?x mod ?k =? 0] => destruct (Z.eqb_spec (x mod k) 0)
           end; simpl; try reflexivity; exfalso; Z.div_mod_to_equations; lia.
Qed.

Lemma days_before_year_decomp a b c e :
  0 <= b <= 3 -> 0 <= c <= 24 -> 0 <= e <= 3 ->
  days_before_year (400 * a + 100 * b + 4 * c + e + 1)
  = 146097 * a + 36524 * b + 1461 * c + 365 * e.
Proof.
  intros Hb Hc He. unfold days_before_year. Z.div_mod_to_equations. lia.
Qed.

Lemma days_before_year_mono y y' :
  y < y' -> days_before_year y + (if is_leap y then 366 else 365) <= days_before_year y'.
Proof.
  intros H. unfold days_before_year, is_leap.
  repeat match goal with
         | |- context [?x mod ?k =? 0] => destruct (Z.eqb_spec (x mod k) 0)
         end; simpl; Z.div_mod_to_equations; lia.
Qed.

Lemma month_day_checked leapyear n :
  0 <= n < 365 -> month_day_ok leapyear n = true.
Proof.
  intros H.
  assert (forallb (month_day_ok leapyear) (seqZ 0 365) = true) as A
      by (destruct leapyear; vm_compute; reflexivity).
  rewrite forallb_forall in A. apply A. apply list_elem_of_In, elem_of_seqZ. lia.
Qed.

Lemma ord2ymd_month_day n :
  ord2ymd n
  = let n0 := n - 1 in
    let a := n0 / DI400Y in let r400 := n0 mod DI400Y in
    let b := r400 / DI100Y in let r100 := r400 mod DI100Y in
    let c := r100 / DI4Y in let r4 := r100 mod DI4Y in
    let e := r4 / 365 in let r1 := r4 mod 365 in
    let y := a * 400 + 1 + b * 100 + c * 4 + e in
    if (e =? 4) || (b =? 4) then (y - 1, 12, 31)
    else let '(m, d) := month_day ((e =? 3) && (negb (c =? 24) || (b =? 3))) r1 in (y, m, d).
Proof.
  unfold ord2ymd, month_day. cbv zeta.
  destruct ((_ =? 4) || (_ =? 4)); [reflexivity|].
  match goal with |- context [if ?p >? ?q then _ else _] => destruct (p >? q) end; reflexivity.
Qed.

Lemma ord2ymd_spec n :
  1 <= n ->
  exists y m d,
    ord2ymd n = (y, m, d)
    /\ 1 <= y /\ 1 <= m <= 12 /\ 1 <= d <= days_in_month y m /\ ymd2ord y m d = n.
Proof.
  intros Hn. rewrite ord2ymd_month_day. cbv zeta. unfold DI400Y, DI100Y, DI4Y.
  pose proof (Z.div_mod (n - 1) 146097 ltac:(lia)) as E1.
  pose proof (Z.mod_pos_bound (n - 1) 146097 ltac:(lia)) as B1.
  set (a := (n - 1) / 146097) in *. set (r400 := (n - 1) mod 146097) in *.
  pose proof (Z.div_mod r400 36524 ltac:(lia)) as E2.
  pose proof (Z.mod_pos_bound r400 36524 ltac:(lia)) as B2.
  set (b := r400 / 36524) in *. set (r100 := r400 mod 36524) in *.
  pose proof (Z.div_mod r100 1461 ltac:(lia)) as E3.
  pose proof (Z.mod_pos_bound r100 1461 ltac:(lia)) as B3.
  set (c := r100 / 1461) in *. set (r4 := r100 mod 1461) in *.
  pose proof (Z.div_mod r4 365 ltac:(lia)) as E4.
  pose proof (Z.mod_pos_bound r4 365 ltac:(lia)) as B4.
  set (e := r4 / 365) in *. set (r1 := r4 mod 365) in *.
  clearbody a r400 b r100 c r4 e r1.
  assert (0 <= a) as Ha by lia.
  assert (0 <= b <= 4) as Hb by lia.
  assert (0 <= c <= 24) as Hc by lia.
  assert (0 <= e <= 4) as He by lia.
  destruct (Z.eqb_spec e 4) as [He4|He4]; [|destruct (Z.eqb_spec b 4) as [Hb4|Hb4]];
    cbn [orb].
  - (* last day of a leap year *)
    assert (c <= 23 /\ b <= 3) as [Hc' Hb'] by lia.
    exists (a * 400 + 1 + b * 100 + c * 4 + e - 1), 12, 31.
    replace (a * 400 + 1 + b * 100 + c * 4 + e - 1) with (400 * a + 100 * b + 4 * c + 3 + 1) by lia.
    split; [reflexivity|].
    unfold ymd2ord, days_in_month, days_before_month.
    rewrite is_leap_decomp, days_before_year_decomp by lia.
    replace (c =? 24) with false by (symmetry; apply Z.eqb_neq; lia).
    simpl. lia.
  - (* last day of a cycle of 400 years *)
    exists (a * 400 + 1 + b * 100 + c * 4 + e - 1), 12, 31.
    replace (a * 400 + 1 + b * 100 + c * 4 + e - 1) with (400 * a + 100 * 3 + 4 * 24 + 3 + 1)
      by lia.
    split; [reflexivity|].
    unfold ymd2ord, days_in_month, days_before_month.
    rewrite is_leap_decomp, days_before_year_decomp by lia.
    simpl. lia.
  - pose proof (month_day_checked ((e =? 3) && (negb (c =? 24) || (b =? 3))) r1 ltac:(lia)) as C.
    unfold month_day_ok in C.
    destruct (month_day ((e =? 3) && (negb (c =? 24) || (b =? 3))) r1) as [m d].
    exists (a * 400 + 1 + b * 100 + c * 4 + e), m, d. split; [reflexivity|].
    replace (a * 400 + 1 + b * 100 + c * 4 + e) with (400 * a + 100 * b + 4 * c + e + 1) by lia.
    unfold ymd2ord, days_in_month, days_before_month.
    rewrite is_leap_decomp, days_before_year_decomp by lia.
    rewrite !andb_true_iff, !Z.leb_le, Z.eqb_eq in C.
    lia.
Qed.

Lemma month_cases m :
  1 <= m <= 12 ->
  m = 1 \/ m = 2 \/ m = 3 \/ m = 4 \/ m = 5 \/ m = 6 \/ m = 7 \/ m = 8
  \/ m = 9 \/ m = 10 \/ m = 11 \/ m = 12.
Proof. lia. Qed.

Ltac each_month H :=
  apply month_cases in H;
  repeat (destruct H as [H | H]); subst.

Lemma day_of_year_bounds y m d :
  1 <= m <= 12 -> 1 <= d <= days_in_month y m ->
  1 <= days_before_month y m + d <= (if is_leap y then 366 else 365).
Proof.
  intros Hm Hd. unfold days_in_month, days_before_month in *.
  each_month Hm; destruct (is_leap y); simpl in *; lia.
Qed.

Lemma day_of_year_month_lt y m d m' d' :
  1 <= m <= 12 -> 1 <= d <= days_in_month y m ->
  1 <= m' <= 12 -> 1 <= d' ->
  m < m' ->
  days_before_month y m + d < days_before_month y m' + d'.
Proof.
  intros Hm Hd Hm' Hd' Hlt. unfold days_in_month, days_before_month in *.
  each_month Hm; each_month Hm'; try lia; destruct (is_leap y); simpl in *; lia.
Qed.

(** The ordinal grows with the date. *)
Lemma ymd2ord_lt y m d y' m' d' :
  1 <= m <= 12 -> 1 <= d <= days_in_month y m ->
  1 <= m' <= 12 -> 1 <= d' <= days_in_month y' m' ->
  tuple_gt [y'; m'; d'] [y; m; d] = true ->
  ymd2ord y m d < ymd2ord y' m' d'.
Proof.
  intros Hm Hd Hm' Hd'. unfold ymd2ord. cbn [tuple_gt].
  destruct (Z.gtb_spec y' y) as [Hy|Hy].
  - intros _. pose proof (days_before_year_mono y y' ltac:(lia)).
    pose proof (day_of_year_bounds y m d Hm Hd).
    pose proof (day_of_year_bounds y' m' d' Hm' Hd').
    destruct (is_leap y); lia.
  - destruct (Z.ltb_spec y' y) as [Hy'|Hy']; [discriminate|].
    assert (y' = y) as -> by lia.
    destruct (Z.gtb_spec m' m) as [Hmm|Hmm].
    + intros _. pose proof (day_of_year_month_lt y m d m' d' Hm Hd Hm' ltac:(lia) ltac:(lia)).
      lia.
    + destruct (Z.ltb_spec m' m) as [Hmm'|Hmm']; [discriminate|].
      assert (m' = m) as -> by lia.
      destruct (Z.gtb_spec d' d); [lia|]. destruct (d' <? d); discriminate.
Qed.

Lemma ymd2ord_eq y m d y' m' d' :
  tuple_gt [y'; m'; d'] [y; m; d] = false ->
  tuple_gt [y; m; d] [y'; m'; d'] = false ->
  y = y' /\ m = m' /\ d = d'.
Proof.
  cbn [tuple_gt].
  repeat match goal with
         | |- context [?a >? ?b] => destruct (Z.gtb_spec a b)
         | |- context [?a <? ?b] => destruct (Z.ltb_spec a b)
         end; try discriminate; intros _ _; lia.
Qed.

Lemma seconds_of_day_bounds d : valid_datetime d -> 0 <= seconds_of_day d < 86400.
Proof. unfold valid_datetime, seconds_of_day. lia. Qed.

Lemma tuple_gt_app (a b c d : list Z) :
  length a = length b ->
  tuple_gt (a ++ c) (b ++ d)
  = tuple_gt a b || (negb (tuple_gt b a) && tuple_gt c d).
Proof.
  revert b; induction a as [|x a IH]; intros [|y b] L; try discriminate; [reflexivity|].
  simpl in L. cbn [app tuple_gt].
  destruct (Z.gtb_spec x y), (Z.ltb_spec x y), (Z.gtb_spec y x), (Z.ltb_spec y x);
    try lia; try reflexivity.
  apply IH. lia.
Qed.

(** The comparison of two date-times is the comparison of their
    positions on the line of the seconds. *)
Lemma dt_gt_spec a b :
  valid_datetime a -> valid_datetime b ->
  dt_gt a b = true <-> epoch_seconds b < epoch_seconds a.
Proof.
  intros Va Vb.
  pose proof (seconds_of_day_bounds a Va) as Sa.
  pose proof (seconds_of_day_bounds b Vb) as Sb.
  destruct Va as (Ya & Ma & Da & Ha & Mia & Sea), Vb as (Yb & Mb & Db & Hb & Mib & Seb).
  unfold dt_gt, fields, epoch_seconds, toordinal.
  change [year a; month a; day a; hour a; minute a; second a]
    with ([year a; month a; day a] ++ [hour a; minute a; second a]).
  change [year b; month b; day b; hour b; minute b; second b]
    with ([year b; month b; day b] ++ [hour b; minute b; second b]).
  rewrite tuple_gt_app by reflexivity.
  destruct (tuple_gt [year a; month a; day a] [year b; month b; day b]) eqn:G1.
  - pose proof (ymd2ord_lt _ _ _ _ _ _ Mb Db Ma Da G1). cbn [orb]. split; [lia|reflexivity].
  - destruct (tuple_gt [year b; month b; day b] [year a; month a; day a]) eqn:G2; cbn [orb negb andb].
    + pose proof (ymd2ord_lt _ _ _ _ _ _ Ma Da Mb Db G2). split; [discriminate|lia].
    + destruct (ymd2ord_eq _ _ _ _ _ _ G1 G2) as (-> & -> & ->).
      unfold seconds_of_day in *. cbn [tuple_gt].
      repeat match goal with
             | |- context [?x >? ?y] => destruct (Z.gtb_spec x y)
             | |- context [?x <? ?y] => destruct (Z.ltb_spec x y)
             end; split; try discriminate; try reflexivity; lia.
Qed.

Lemma sub_total_seconds_epoch a b :
  sub_total_seconds a b = epoch_seconds a - epoch_seconds b.
Proof. unfold sub_total_seconds, epoch_seconds. lia. Qed.

Lemma strptime_valid d t dt : strptime d t = Ok dt -> valid_datetime dt.
Proof.
  unfold strptime, valid_date.
  destruct (_ && _ && _ && _ && _ && _) eqn:E1; [|discriminate].
  destruct (_ && _ && _ && _ && _ && _) eqn:E2 in |- *; [|discriminate].
  intros [= <-]. unfold valid_datetime. cbn [year month day hour minute second].
  rewrite !andb_true_iff, !Z.leb_le in E1, E2. lia.
Qed.

(** [fromtimestamp] gives the date-time whose position on the line of
    the seconds is the local time. *)
Lemma fromtimestamp_spec utcoffset ts dt :
  fromtimestamp utcoffset ts = Ok dt ->
  valid_datetime dt /\ epoch_seconds dt = ts + utcoffset ts.
Proof.
  unfold fromtimestamp. cbv zeta.
  destruct (_ && _) eqn:E; [|discriminate].
  rewrite andb_true_iff, !Z.leb_le in E.
  destruct (ord2ymd_spec (719163 + (ts + utcoffset ts) / 86400) ltac:(lia))
    as (y & m & d & -> & Hy & Hm & Hd & Ho).
  intros [= <-]. unfold valid_datetime, epoch_seconds, toordinal, seconds_of_day.
  cbn [year month day hour minute second]. rewrite Ho.
  set (l := ts + utcoffset ts) in *. clearbody l.
  Z.div_mod_to_equations. lia.
Qed.

(** ** TraceMatcher *)

Lemma eligible_gap_inv lower cat pdt f g :
  eligible_gap lower cat pdt f = Some g ->
  exists dt category tid,
    parse_trace_filename f = Ok (Some (dt, category, tid))
    /\ lower category = lower cat
    /\ dt_gt dt pdt = false
    /\ g = sub_total_seconds pdt dt
    /\ g <= 3600.
Proof.
  unfold eligible_gap.
  destruct (parse_trace_filename f) as [[[[dt c] tid]|]|]; try discriminate.
  destruct (str_eqb _ _) eqn:E1; simpl; [|discriminate].
  destruct (dt_gt dt pdt) eqn:E2; simpl; [discriminate|].
  destruct (_ <=? 3600) eqn:E3; [|discriminate].
  intros [= <-]. exists dt, c, tid.
  apply str_eqb_eq in E1. repeat split; auto. lia.
Qed.

(** The loop keeps, in the order of the listing, the files that pass
    the filters, and raises as soon as the name of a file does not
    decode. *)
Lemma scan_traces_spec lower cat pdt files acc l :
  scan_traces lower cat pdt files acc = Ok l
  <-> Forall decodes files /\ l = acc ++ survivors lower cat pdt files.
Proof.
  revert acc l; induction files as [|f fs IH]; intros acc l; simpl.
  - unfold survivors; simpl. rewrite app_nil_r. split.
    + intros [= <-]. split; [constructor | reflexivity].
    + intros [_ ->]. reflexivity.
  - rewrite Forall_cons. unfold survivors, eligible_gap in *; simpl.
    destruct (parse_trace_filename f) as [[[[dt c] tid]|]|e] eqn:P.
    + assert (decodes f) as Hf by (intros e; unfold decodes; rewrite P; discriminate).
      destruct (str_eqb _ _) eqn:E1; simpl.
      * destruct (dt_gt dt pdt) eqn:E2; simpl.
        -- rewrite IH. intuition.
        -- destruct (_ >? 3600) eqn:E3.
           ++ replace (_ <=? 3600) with false by lia.
              rewrite IH. intuition.
           ++ replace (_ <=? 3600) with true by lia. simpl.
              rewrite IH, <- app_assoc. simpl. intuition.
      * rewrite IH. intuition.
    + assert (decodes f) as Hf by (intros e; unfold decodes; rewrite P; discriminate).
      rewrite IH. intuition.
    + split; [discriminate|]. intros [[Hf _] _].
      exfalso. exact (Hf e P).
Qed.


Lemma survivors_elem lower cat pdt files g f :
  (g, f) ∈ survivors lower cat pdt files <-> f ∈ files /\ eligible_gap lower cat pdt f = Some g.
Proof.
  unfold survivors. rewrite list_elem_of_omap. split.
  - intros (x & Hx & E). destruct (eligible_gap lower cat pdt x) as [g'|] eqn:G; simpl in E; [|discriminate].
    injection E as <- <-. split; assumption.
  - intros [Hf E]. exists f. split; [assumption|]. rewrite E. reflexivity.
Qed.

(** What [find_matching_trace] does for an item that carries a usable
    publish time. *)
Lemma find_matching_trace_unfold utcoffset lower files it ts pdt :
  publish_time it = Some ts -> ts <> 0 -> fromtimestamp utcoffset ts = Ok pdt ->
  (find_matching_trace utcoffset lower files it).2
  = match scan_traces lower (target_category_of it) pdt files [] with
    | Raise e => Raise e
    | Ok candidates =>
      match first_min candidates with
      | None => Ok None
      | Some c => Ok (Some c.2)
      end
    end.
Proof.
  intros Hts Hnz Hdt. unfold find_matching_trace. rewrite Hts.
  destruct (ts =? 0) eqn:E; [lia|]. rewrite Hdt.
  fold (target_category_of it).
  destruct (scan_traces _ _ _ _) as [cands|e]; [|reflexivity].
  rewrite <- head_sort_by_key. destruct (sort_by_key cands); reflexivity.
Qed.

Lemma parse_trace_filename_valid f dt c i :
  parse_trace_filename f = Ok (Some (dt, c, i)) -> valid_datetime dt.
Proof.
  unfold parse_trace_filename.
  destruct (re_match trace_pattern (basename f)) as [[[|d [|t [|c' [|i' [|]]]]] rest]|];
    try discriminate.
  destruct (strptime d t) as [dt'|e] eqn:S; [|discriminate].
  intros [= <- _ _]. exact (strptime_valid _ _ _ S).
Qed.

(** Every trace path that [find_matching_trace] returns is one of the
    listed files, decodes, and passed the three filters as the code
    applies them: same category up to case, not later than the publish
    time in local time, and at most 3600 seconds before it. *)
Lemma find_matching_trace_filters utcoffset lower files it out p :
  find_matching_trace utcoffset lower files it = (out, Ok (Some p)) ->
  exists ts pdt dt cat tid,
    publish_time it = Some ts
    /\ fromtimestamp utcoffset ts = Ok pdt
    /\ p ∈ files
    /\ parse_trace_filename p = Ok (Some (dt, cat, tid))
    /\ lower cat = lower (target_category_of it)
    /\ dt_gt dt pdt = false
    /\ epoch_seconds pdt = ts + utcoffset ts
    /\ sub_total_seconds pdt dt = epoch_seconds pdt - epoch_seconds dt
    /\ 0 <= sub_total_seconds pdt dt <= 3600.
Proof.
  intros H.
  destruct (publish_time it) as [ts|] eqn:Hts;
    [|unfold find_matching_trace in H; rewrite Hts in H; discriminate].
  destruct (Z.eq_dec ts 0) as [->|Hnz];
    [unfold find_matching_trace in H; rewrite Hts in H; discriminate|].
  destruct (fromtimestamp utcoffset ts) as [pdt|e] eqn:Hdt;
    [|unfold find_matching_trace in H; rewrite Hts, Hdt in H;
      destruct (ts =? 0); discriminate].
  pose proof (find_matching_trace_unfold utcoffset lower files it ts pdt Hts Hnz Hdt) as U.
  rewrite H in U. simpl in U.
  destruct (scan_traces _ _ _ _) as [cands|e] eqn:S; [|discriminate].
  apply scan_traces_spec in S as [_ ->]. simpl in U.
  destruct (first_min _) as [[g f]|] eqn:M; [|discriminate].
  injection U as ->. simpl.
  apply first_min_elem, survivors_elem in M as [Hin G].
  destruct (eligible_gap_inv _ _ _ _ _ G) as (dt & cat & tid & P & C & T & -> & W).
  destruct (fromtimestamp_spec _ _ _ Hdt) as [Vp Ep].
  pose proof (parse_trace_filename_valid _ _ _ _ P) as Vd.
  assert (~ epoch_seconds pdt < epoch_seconds dt) as Hle
      by (rewrite <- (dt_gt_spec dt pdt Vd Vp); congruence).
  pose proof (sub_total_seconds_epoch pdt dt) as Hs.
  exists ts, pdt, dt, cat, tid. repeat split; try assumption; lia.
Qed.

(** C1 (the code at the failing input): on a machine in UTC, for an item
    published at 2026-01-07 12:29:00 and the single trace stamped
    2026-01-07 12:29, [find_matching_trace] returns that trace although
    its time stamp is the publish time itself, not an earlier one. *)
Theorem find_matching_trace_same_minute :
  let it := mk_Item None None (Some (u "AI")) (Some 1767788940) None in
  let f := u "trace_20260107_1229_AI_86eafa6b.md" in
  let stamp := mk_datetime 2026 1 7 12 29 0 in
  fromtimestamp (fun _ => 0) 1767788940 = Ok stamp
  /\ parse_trace_filename f = Ok (Some (stamp, u "AI", u "86eafa6b"))
  /\ dt_gt stamp stamp = false
  /\ sub_total_seconds stamp stamp = 0
  /\ find_matching_trace (fun _ => 0) ascii_lower [f] it
     = ([u "Searching for trace matching: Category='AI', PublishTime=2026-01-07 12:29:00"],
        Ok (Some f)).
Proof. vm_compute. repeat split; reflexivity. Qed.



(** C10: an item whose [publish_time] is 0 is handled as an item without
    a publish time: the note is printed and [None] is returned, whatever
    the trace files are, none of them being decoded. *)
Theorem find_matching_trace_epoch_zero utcoffset lower files it :
  publish_time it = Some 0 ->
  find_matching_trace utcoffset lower files it = ([u "Item has no publish_time."], Ok None)
  /\ find_matching_trace utcoffset lower files it
     = find_matching_trace utcoffset lower files
         (mk_Item (item_id it) (title it) (category it) None (duration_sec it))
  /\ (forall files',
        find_matching_trace utcoffset lower files' it
        = find_matching_trace utcoffset lower files it).
Proof.
  intros H. unfold find_matching_trace. rewrite H. simpl. repeat split; reflexivity.
Qed.

Lemma find_matching_trace_epoch_zero_witness :
  find_matching_trace (fun _ => 0) ascii_lower [u "trace_20261301_1229_AI_86eafa6b.md"]
    (mk_Item None None (Some (u "AI")) (Some 0) None)
  = ([u "Item has no publish_time."], Ok None).
Proof.
  exact (proj1 (find_matching_trace_epoch_zero (fun _ => 0) ascii_lower
                  [u "trace_20261301_1229_AI_86eafa6b.md"]
                  (mk_Item None None (Some (u "AI")) (Some 0) None) eq_refl)).
Defined.

(** ** The matcher and the texts of a pattern *)

Section MatcherFacts.
Context {R : Type}.
Implicit Types (p : N -> bool) (s w : list N) (k : list N -> option R).

Lemma star_greedy_sound p s k x :
  star_greedy p s k = Some x ->
  exists w s', s = w ++ s' /\ forallb p w = true /\ k s' = Some x.
Proof.
  induction s as [|c s IH]; simpl.
  - intros H. exists [], []. auto.
  - destruct (p c) eqn:Pc.
    + destruct (star_greedy p s k) as [y|] eqn:E.
      * intros [= <-]. destruct (IH eq_refl) as (w & s' & -> & Hw & Hk).
        exists (c :: w), s'. simpl. rewrite Pc, Hw. auto.
      * intros H. exists [], (c :: s). auto.
    + intros H. exists [], (c :: s). auto.
Qed.

Lemma star_lazy_sound p s k x :
  star_lazy p s k = Some x ->
  exists w s', s = w ++ s' /\ forallb p w = true /\ k s' = Some x.
Proof.
  induction s as [|c s IH]; simpl.
  - destruct (k []) eqn:E; [|discriminate]. intros [= <-]. exists [], []. auto.
  - destruct (k (c :: s)) eqn:E.
    + intros [= <-]. exists [], (c :: s). auto.
    + destruct (p c) eqn:Pc; [|discriminate].
      intros H. destruct (IH H) as (w & s' & -> & Hw & Hk).
      exists (c :: w), s'. simpl. rewrite Pc, Hw. auto.
Qed.

Lemma star_sound g p s k x :
  star g p s k = Some x ->
  exists w s', s = w ++ s' /\ forallb p w = true /\ k s' = Some x.
Proof. destruct g; [apply star_greedy_sound | apply star_lazy_sound]. Qed.

Lemma times_sound n p s k x :
  times n p s k = Some x ->
  exists w s', s = w ++ s' /\ length w = n /\ forallb p w = true /\ k s' = Some x.
Proof.
  revert s; induction n as [|n IH]; intros s; simpl.
  - intros H. exists [], s. auto.
  - destruct s as [|c s]; [discriminate|]. destruct (p c) eqn:Pc; [|discriminate].
    intros H. destruct (IH _ H) as (w & s' & -> & <- & Hw & Hk).
    exists (c :: w), s'. simpl. rewrite Pc, Hw. auto.
Qed.

Lemma star_greedy_complete p w s' k :
  forallb p w = true -> is_Some (k s') -> is_Some (star_greedy p (w ++ s') k).
Proof.
  intros Hw Hk. induction w as [|c w IH]; simpl in *.
  - destruct s' as [|c s']; simpl; [assumption|].
    destruct (p c); [|assumption]. destruct (star_greedy p s' k); [eauto | assumption].
  - apply andb_true_iff in Hw as [-> Hw].
    destruct (IH Hw) as [y ->]. eauto.
Qed.

Lemma star_lazy_complete p w s' k :
  forallb p w = true -> is_Some (k s') -> is_Some (star_lazy p (w ++ s') k).
Proof.
  intros Hw Hk. induction w as [|c w IH]; simpl in *.
  - destruct s' as [|c s']; simpl; destruct Hk as [y ->]; eauto.
  - apply andb_true_iff in Hw as [-> Hw].
    destruct (k (c :: w ++ s')); [eauto | exact (IH Hw)].
Qed.

Lemma star_complete g p w s' k :
  forallb p w = true -> is_Some (k s') -> is_Some (star g p (w ++ s') k).
Proof. destruct g; [apply star_greedy_complete | apply star_lazy_complete]. Qed.

Lemma times_app p w s' k :
  forallb p w = true -> times (length w) p (w ++ s') k = k s'.
Proof.
  induction w as [|c w IH]; simpl; [reflexivity|].
  intros Hw. apply andb_true_iff in Hw as [-> Hw]. exact (IH Hw).
Qed.
End MatcherFacts.

Lemma take_captured (w s' : list N) : take (length (w ++ s') - length s') (w ++ s') = w.
Proof.
  rewrite length_app. replace (length w + length s' - length s')%nat with (length w) by lia.
  apply take_app_length.
Qed.

(** Soundness: an answer of the matcher comes from a prefix of the text
    that the pattern matches, with the groups passed on. *)
Lemma rmatch_sound {R} r :
  forall s caps (k : list N -> list (list N) -> option R) x,
    rmatch r s caps k = Some x ->
    exists w s' cs, s = w ++ s' /\ matches r w cs /\ k s' (caps ++ cs) = Some x.
Proof.
  induction r as [l|p|n p|g p|g p|r1 IH1 r2 IH2|r IH]; intros s caps k x; simpl.
  - destruct (startswith l s) eqn:E; [|discriminate].
    apply startswith_spec in E as [t ->]. rewrite drop_app_length. intros H.
    exists l, t, []. rewrite app_nil_r. auto using matches.
  - destruct s as [|c s]; [discriminate|]. destruct (p c) eqn:Pc; [|discriminate].
    intros H. exists [c], s, []. rewrite app_nil_r. auto using matches.
  - intros H. apply times_sound in H as (w & s' & -> & Hn & Hw & Hk).
    exists w, s', []. rewrite app_nil_r. auto using matches.
  - intros H. apply star_sound in H as (w & s' & -> & Hw & Hk).
    exists w, s', []. rewrite app_nil_r. auto using matches.
  - destruct s as [|c s]; [discriminate|]. destruct (p c) eqn:Pc; [|discriminate].
    intros H. apply star_sound in H as (w & s' & -> & Hw & Hk).
    exists (c :: w), s', []. rewrite app_nil_r. split; [reflexivity|]. split; [|assumption].
    constructor; [discriminate|]. simpl. rewrite Pc, Hw. reflexivity.
  - intros H. apply IH1 in H as (w1 & s1 & c1 & -> & M1 & H).
    apply IH2 in H as (w2 & s2 & c2 & -> & M2 & H).
    exists (w1 ++ w2), s2, (c1 ++ c2). rewrite <- !app_assoc in *.
    auto using matches.
  - intros H. apply IH in H as (w & s' & cs & -> & M & H).
    rewrite take_captured in H.
    exists w, s', (cs ++ [w]). rewrite app_assoc. auto using matches.
Qed.

(** Completeness: when a prefix of the text matches the pattern and the
    continuation accepts what follows, the matcher gives an answer. *)
Lemma rmatch_complete {R} r w cs :
  matches r w cs ->
  forall s' caps (k : list N -> list (list N) -> option R),
    is_Some (k s' (caps ++ cs)) -> is_Some (rmatch r (w ++ s') caps k).
Proof.
  induction 1 as [l|p c Pc|n p w Hn Hw|g p w Hw|g p w Hne Hw
                  |r1 r2 w1 w2 c1 c2 M1 IH1 M2 IH2|r w c M IH];
    intros s' caps k Hk; simpl; rewrite ?app_nil_r in Hk.
  - rewrite startswith_app, drop_app_length. exact Hk.
  - rewrite Pc. exact Hk.
  - subst n. rewrite times_app by assumption. exact Hk.
  - apply star_complete; assumption.
  - destruct w as [|c w]; [congruence|]. simpl in *.
    apply andb_true_iff in Hw as [-> Hw]. apply star_complete; assumption.
  - rewrite <- app_assoc. apply IH1. apply IH2. rewrite <- app_assoc. exact Hk.
  - apply IH. rewrite take_captured, <- app_assoc. exact Hk.
Qed.

Lemma re_match_sound r s cs rest :
  re_match r s = Some (cs, rest) -> exists w, s = w ++ rest /\ matches r w cs.
Proof.
  intros H. apply rmatch_sound in H as (w & s' & cs' & -> & M & [= <- <-]).
  exists w. auto.
Qed.

Lemma re_match_complete r w cs rest :
  matches r w cs -> is_Some (re_match r (w ++ rest)).
Proof. intros M. apply (rmatch_complete r w cs M). eauto. Qed.

(** [re.match] finds nothing exactly when no prefix of the text matches. *)
Lemma re_match_none r s :
  re_match r s = None <-> ~ exists w rest cs, s = w ++ rest /\ matches r w cs.
Proof.
  split.
  - intros H (w & rest & cs & -> & M).
    destruct (re_match_complete r w cs rest M) as [y Hy]. congruence.
  - intros H. destruct (re_match r s) as [[cs rest]|] eqn:E; [|reflexivity].
    exfalso. apply H. apply re_match_sound in E as (w & -> & M). eauto.
Qed.

(** ** The pattern of the trace file names *)

Lemma matches_cat_intro r1 r2 w1 w2 c1 c2 w cs :
  matches r1 w1 c1 -> matches r2 w2 c2 -> w = w1 ++ w2 -> cs = c1 ++ c2 ->
  matches (r1 >> r2) w cs.
Proof. intros M1 M2 -> ->. constructor; assumption. Qed.

Lemma matches_grp_intro r w c cs :
  matches r w c -> cs = c ++ [w] -> matches (Grp r) w cs.
Proof. intros M ->. constructor; assumption. Qed.

Ltac inv_matches :=
  repeat match goal with
         | H : matches (_ >> _) _ _ |- _ => inversion H; subst; clear H
         | H : matches (Grp _) _ _ |- _ => inversion H; subst; clear H
         | H : matches (Lit _) _ _ |- _ => inversion H; subst; clear H
         | H : matches (Times _ _) _ _ |- _ => inversion H; subst; clear H
         | H : matches (Plus _ _) _ _ |- _ => inversion H; subst; clear H
         | H : matches (Star _ _) _ _ |- _ => inversion H; subst; clear H
         end.

(** The texts of [trace_pattern] are the names of the grammar. *)
Lemma matches_trace_pattern w cs :
  matches trace_pattern w cs
  <-> exists d t c i, w = trace_name d t c i /\ cs = [d; t; c; i] /\ trace_fields d t c i.
Proof.
  unfold trace_pattern, trace_name. split.
  - intros M. inv_matches.
    match goal with
    | |- exists d t c i, _ ++ ?d' ++ _ ++ ?t' ++ _ ++ ?c' ++ _ ++ ?i' ++ _ = _ /\ _ =>
      exists d', t', c', i'
    end.
    split; [reflexivity|]. split; [reflexivity|]. constructor; assumption.
  - intros (d & t & c & i & -> & -> & [H1 H2 H3 H4 H5 H6 H7 H8]).
    eapply matches_cat_intro; [apply M_Lit| |reflexivity|simpl; reflexivity].
    eapply matches_cat_intro;
      [eapply matches_grp_intro; [apply (M_Times _ _ d); assumption|reflexivity]
      | |reflexivity|simpl; reflexivity].
    eapply matches_cat_intro; [apply M_Lit| |reflexivity|simpl; reflexivity].
    eapply matches_cat_intro;
      [eapply matches_grp_intro; [apply (M_Times _ _ t); assumption|reflexivity]
      | |reflexivity|simpl; reflexivity].
    eapply matches_cat_intro; [apply M_Lit| |reflexivity|simpl; reflexivity].
    eapply matches_cat_intro;
      [eapply matches_grp_intro; [apply (M_Plus _ _ c); assumption|reflexivity]
      | |reflexivity|simpl; reflexivity].
    eapply matches_cat_intro; [apply M_Lit| |reflexivity|simpl; reflexivity].
    eapply matches_cat_intro;
      [eapply matches_grp_intro; [apply (M_Plus _ _ i); assumption|reflexivity]
      | |reflexivity|simpl; reflexivity].
    apply M_Lit.
Qed.

Section GreedyFacts.
Context {R : Type}.
Implicit Types (p : N -> bool) (s w t : list N).

Lemma star_greedy_stop p t (k : list N -> option R) :
  (forall m, (0 < m)%nat -> k (drop m t) = None) -> star_greedy p t k = k t.
Proof.
  induction t as [|c t IH]; intros H; simpl; [reflexivity|].
  destruct (p c); [|reflexivity].
  rewrite IH by (intros m Hm; apply (H (S m)); lia).
  rewrite (H 1%nat ltac:(lia) : k t = None). reflexivity.
Qed.

(** The greedy run gives back what it took beyond [w] when the
    continuation refuses every later position and accepts this one. *)
Lemma star_greedy_exact p w t (k : list N -> option R) :
  forallb p w = true ->
  (forall m, (0 < m)%nat -> k (drop m t) = None) ->
  is_Some (k t) ->
  star_greedy p (w ++ t) k = k t.
Proof.
  intros Hw Hlater [y Hy]. induction w as [|c w IH]; simpl in *.
  - apply star_greedy_stop; assumption.
  - apply andb_true_iff in Hw as [-> Hw]. rewrite (IH Hw), Hy. reflexivity.
Qed.

Lemma rmatch_lit_cat l r s caps (k : list N -> list (list N) -> option R) :
  rmatch (Lit l >> r) (l ++ s) caps k = rmatch r s caps k.
Proof. simpl. rewrite startswith_app, drop_app_length. reflexivity. Qed.

Lemma rmatch_lit_end l caps (k : list N -> list (list N) -> option R) :
  rmatch (Lit l) l caps k = k [] caps.
Proof.
  simpl. pose proof (startswith_app l []) as H. rewrite app_nil_r in H.
  rewrite H, drop_all. reflexivity.
Qed.

Lemma rmatch_times_cat n p r w s caps (k : list N -> list (list N) -> option R) :
  length w = n -> forallb p w = true ->
  rmatch (Grp (Times n p) >> r) (w ++ s) caps k = rmatch r s (caps ++ [w]) k.
Proof.
  intros <- Hw. simpl. rewrite times_app by assumption.
  rewrite take_captured. reflexivity.
Qed.

Lemma rmatch_plus_cat p r w t caps (k : list N -> list (list N) -> option R) :
  w <> [] -> forallb p w = true ->
  (forall m caps', (0 < m)%nat -> rmatch r (drop m t) caps' k = None) ->
  is_Some (rmatch r t (caps ++ [w]) k) ->
  rmatch (Grp (Plus true p) >> r) (w ++ t) caps k = rmatch r t (caps ++ [w]) k.
Proof.
  intros Hne Hw Hlater Hk. destruct w as [|c w]; [congruence|].
  simpl in Hw. apply andb_true_iff in Hw as [Pc Hw].
  cbn [rmatch app star]. rewrite Pc.
  rewrite star_greedy_exact; [|assumption| |].
  - change (c :: w ++ t) with ((c :: w) ++ t). rewrite take_captured. reflexivity.
  - intros m Hm. apply Hlater. exact Hm.
  - change (c :: w ++ t) with ((c :: w) ++ t). rewrite take_captured. exact Hk.
Qed.
End GreedyFacts.

Lemma startswith_underscore_drop (s : list N) m :
  Forall (fun x => x <> 95%N) s -> startswith (u "_") (drop m s) = false.
Proof.
  intros H. assert (Forall (fun x => x <> 95%N) (drop m s)) as H' by (apply Forall_drop; exact H).
  destruct (drop m s) as [|x s']; [reflexivity|].
  inversion H' as [|? ? Hx _]; subst.
  change (startswith (u "_") (x :: s')) with ((95 =? x)%N && true).
  destruct (N.eqb_spec 95 x); [congruence | reflexivity].
Qed.

Lemma hex_not_underscore (i : list N) :
  forallb is_hex_lower i = true -> Forall (fun x => x <> 95%N) (i ++ u ".md").
Proof.
  intros H. apply Forall_app. split.
  - apply Forall_forall. intros x Hx Heq. subst x.
    apply list_elem_of_In in Hx.
    rewrite forallb_forall in H. specialize (H _ Hx). discriminate.
  - change (u ".md") with [46%N; 109%N; 100%N]. repeat constructor; discriminate.
Qed.

(** On a name of the grammar, [re.match] consumes the whole name and
    captures its four fields. *)
Lemma re_match_trace_name d t c i :
  trace_fields d t c i ->
  re_match trace_pattern (trace_name d t c i) = Some ([d; t; c; i], []).
Proof.
  intros [H1 H2 H3 H4 H5 H6 H7 H8].
  unfold re_match, trace_pattern, trace_name.
  rewrite rmatch_lit_cat, rmatch_times_cat by assumption.
  rewrite rmatch_lit_cat, rmatch_times_cat by assumption.
  rewrite rmatch_lit_cat.
  assert (forall caps, rmatch (Grp (Plus true is_hex_lower) >> Lit (u ".md")) (i ++ u ".md") caps
                         (fun rest caps' => Some (caps', rest))
                       = Some (caps ++ [i], [])) as Hid.
  { intros caps. rewrite rmatch_plus_cat; try assumption.
    - apply rmatch_lit_end.
    - intros m caps' Hm. change (u ".md") with [46%N; 109%N; 100%N].
      destruct m as [|[|[|m]]]; [lia|reflexivity|reflexivity|].
      cbn [drop]. rewrite drop_nil. reflexivity.
    - rewrite rmatch_lit_end. eauto. }
  rewrite rmatch_plus_cat; try assumption.
  - rewrite rmatch_lit_cat, Hid. reflexivity.
  - intros m caps' Hm. destruct m as [|m]; [lia|].
    change (drop (S m) (u "_" ++ i ++ u ".md")) with (drop m (i ++ u ".md")).
    cbn [rmatch]. rewrite startswith_underscore_drop by (apply hex_not_underscore; assumption).
    reflexivity.
  - rewrite rmatch_lit_cat, Hid. eauto.
Qed.

(** ** Digits, dates and [strptime] *)

Lemma is_digit_range c : is_digit c = true <-> (48 <= c <= 57)%N.
Proof. unfold is_digit. rewrite andb_true_iff, !N.leb_le. reflexivity. Qed.

Lemma int_of_digits_snoc s c :
  int_of_digits (s ++ [c]) = (int_of_digits s * 10 + (c - 48))%N.
Proof. unfold int_of_digits. rewrite fold_left_app. reflexivity. Qed.

Lemma zero_pad_int_of_digits s :
  forallb is_digit s = true -> zero_pad (length s) (int_of_digits s) = s.
Proof.
  induction s as [|c s IH] using rev_ind; intros H; [reflexivity|].
  rewrite forallb_app in H. apply andb_true_iff in H as [Hs Hc].
  simpl in Hc. rewrite andb_true_r in Hc. apply is_digit_range in Hc.
  rewrite length_app, Nat.add_1_r, int_of_digits_snoc. cbn [zero_pad].
  assert (((int_of_digits s * 10 + (c - 48)) / 10 = int_of_digits s)%N) as ->
      by (symmetry; apply N.div_unique with (r := (c - 48)%N); lia).
  assert (((int_of_digits s * 10 + (c - 48)) mod 10 = c - 48)%N) as ->
      by (symmetry; apply N.mod_unique with (q := int_of_digits s); lia).
  rewrite IH by assumption. f_equal. f_equal. lia.
Qed.

Lemma int_of_digits_bound s :
  forallb is_digit s = true -> (int_of_digits s < 10 ^ N.of_nat (length s))%N.
Proof.
  induction s as [|c s IH] using rev_ind; intros H; [reflexivity|].
  rewrite forallb_app in H. apply andb_true_iff in H as [Hs Hc].
  simpl in Hc. rewrite andb_true_r in Hc. apply is_digit_range in Hc.
  specialize (IH Hs).
  rewrite length_app, Nat.add_1_r, int_of_digits_snoc, Nat2N.inj_succ, N.pow_succ_r'.
  set (P := (10 ^ N.of_nat (length s))%N) in *. lia.
Qed.

Lemma forallb_take_drop (p : N -> bool) n (s : list N) :
  forallb p s = true -> forallb p (take n s) = true /\ forallb p (drop n s) = true.
Proof.
  intros H. rewrite <- (take_drop n s), forallb_app in H.
  apply andb_true_iff in H. exact H.
Qed.

Lemma days_in_month_le_31 y m : 1 <= m <= 12 -> days_in_month y m <= 31.
Proof.
  intros H. unfold days_in_month.
  assert (m = 1 \/ m = 2 \/ m = 3 \/ m = 4 \/ m = 5 \/ m = 6 \/ m = 7 \/ m = 8
          \/ m = 9 \/ m = 10 \/ m = 11 \/ m = 12) as Hm by lia.
  destruct (is_leap y);
    repeat (destruct Hm as [-> | Hm]; [simpl; lia|]); subst; simpl; lia.
Qed.

(** [strptime] succeeds exactly on the stamps that denote a moment of
    the calendar, and the digits can be recovered from its result. *)
Lemma strptime_spec d t :
  length d = 8%nat -> forallb is_digit d = true ->
  length t = 4%nat -> forallb is_digit t = true ->
  (valid_stamp d t ->
   exists dt, strptime d t = Ok dt /\ encode_date dt = d /\ encode_time dt = t)
  /\ (~ valid_stamp d t -> strptime d t = Raise ValueError).
Proof.
  intros Ld Dd Lt Dt.
  destruct (forallb_take_drop is_digit 4 d Dd) as [Dy Dmd].
  destruct (forallb_take_drop is_digit 2 (drop 4 d) Dmd) as [Dm Dday].
  rewrite drop_drop in Dday. change (4 + 2)%nat with 6%nat in Dday.
  destruct (forallb_take_drop is_digit 2 t Dt) as [DH DM].
  assert (length (take 4 d) = 4%nat) as Ly by (rewrite length_take; lia).
  assert (length (take 2 (drop 4 d)) = 2%nat) as Lm
      by (rewrite length_take, length_drop; lia).
  assert (length (drop 6 d) = 2%nat) as Lday by (rewrite length_drop; lia).
  assert (length (take 2 t) = 2%nat) as LH by (rewrite length_take; lia).
  assert (length (drop 2 t) = 2%nat) as LM by (rewrite length_drop; lia).
  pose proof (int_of_digits_bound _ Dy) as By. rewrite Ly in By.
  unfold valid_stamp, strptime, valid_date.
  set (y := Z.of_N (int_of_digits (take 4 d))) in *.
  set (m := Z.of_N (int_of_digits (take 2 (drop 4 d)))) in *.
  set (dd := Z.of_N (int_of_digits (drop 6 d))) in *.
  set (H := Z.of_N (int_of_digits (take 2 t))) in *.
  set (M := Z.of_N (int_of_digits (drop 2 t))) in *.
  assert (y <= 9999) as Hy by (subst y; change (10 ^ N.of_nat 4)%N with 10000%N in By; lia).
  split.
  - intros (V1 & V2 & V3 & V4 & V5).
    pose proof (days_in_month_le_31 y m V2).
    replace ((1 <=? m) && (m <=? 12) && (1 <=? dd) && (dd <=? 31) && (H <=? 23)
             && (M <=? 59)) with true
      by (symmetry; rewrite !andb_true_iff, !Z.leb_le; lia).
    replace ((1 <=? y) && (y <=? 9999) && (1 <=? m) && (m <=? 12) && (1 <=? dd)
             && (dd <=? days_in_month y m)) with true
      by (symmetry; rewrite !andb_true_iff, !Z.leb_le; lia).
    eexists. split; [reflexivity|].
    unfold encode_date, encode_time. cbn [year month day hour minute].
    subst y m dd H M. rewrite !N2Z.id.
    pose proof (zero_pad_int_of_digits _ Dy) as Zy. rewrite Ly in Zy.
    pose proof (zero_pad_int_of_digits _ Dm) as Zm. rewrite Lm in Zm.
    pose proof (zero_pad_int_of_digits _ Dday) as Zd. rewrite Lday in Zd.
    pose proof (zero_pad_int_of_digits _ DH) as ZH. rewrite LH in ZH.
    pose proof (zero_pad_int_of_digits _ DM) as ZM. rewrite LM in ZM.
    rewrite Zy, Zm, Zd, ZH, ZM.
    replace (drop 6 d) with (drop 2 (drop 4 d)) by (rewrite drop_drop; reflexivity).
    rewrite (take_drop 2 (drop 4 d)), (take_drop 4 d), (take_drop 2 t). auto.
  - intros NV.
    destruct ((1 <=? m) && (m <=? 12) && (1 <=? dd) && (dd <=? 31) && (H <=? 23)
              && (M <=? 59)) eqn:E1; [|reflexivity].
    destruct ((1 <=? y) && (y <=? 9999) && (1 <=? m) && (m <=? 12) && (1 <=? dd)
              && (dd <=? days_in_month y m)) eqn:E2; [|reflexivity].
    exfalso. apply NV.
    rewrite !andb_true_iff, !Z.leb_le in E1, E2. lia.
Qed.

(** ** FilenameCodec *)

Lemma valid_stamp_dec d t : valid_stamp d t \/ ~ valid_stamp d t.
Proof. unfold valid_stamp. lia. Qed.

Lemma trace_name_stamp_inj d t c i rest d' t' c' i' rest' :
  length d = 8%nat -> length t = 4%nat -> length d' = 8%nat -> length t' = 4%nat ->
  trace_name d t c i ++ rest = trace_name d' t' c' i' ++ rest' ->
  d = d' /\ t = t'.
Proof.
  intros Ld Lt Ld' Lt' H. unfold trace_name in H. rewrite <- !app_assoc in H.
  apply app_inv_head in H.
  apply app_inj_1 in H as [-> H]; [|congruence].
  apply app_inv_head in H.
  apply app_inj_1 in H as [-> H]; [|congruence].
  auto.
Qed.

(** What [parse_trace_filename] computes, in terms of the grammar. *)
Lemma parse_trace_filename_unfold f :
  (re_match trace_pattern (basename f) = None /\ parse_trace_filename f = Ok None)
  \/ (exists d t c i rest,
        basename f = trace_name d t c i ++ rest /\ trace_fields d t c i
        /\ re_match trace_pattern (basename f) = Some ([d; t; c; i], rest)
        /\ parse_trace_filename f
           = match strptime d t with
             | Ok dt => Ok (Some (dt, c, i))
             | Raise e => Raise e
             end).
Proof.
  unfold parse_trace_filename.
  destruct (re_match trace_pattern (basename f)) as [[cs rest]|] eqn:E; [right|left; auto].
  destruct (re_match_sound _ _ _ _ E) as (w & Hw & M).
  apply matches_trace_pattern in M as (d & t & c & i & -> & -> & F).
  exists d, t, c, i, rest. auto.
Qed.

(** C2 (as amended): a file name that starts with a name of the grammar
    whose digits do not denote a moment of the calendar is not answered
    by the no-match result: [parse_trace_filename] raises the
    [ValueError] of [strptime]. *)
Theorem parse_trace_filename_invalid_date f d t c i rest :
  basename f = trace_name d t c i ++ rest ->
  trace_fields d t c i ->
  ~ valid_stamp d t ->
  parse_trace_filename f = Raise ValueError.
Proof.
  intros Hb F NV.
  destruct (parse_trace_filename_unfold f) as [[Hnone _] | (d' & t' & c' & i' & rest' & Hb' & F' & _ & ->)].
  - exfalso. apply re_match_none in Hnone. apply Hnone.
    exists (trace_name d t c i), rest, [d; t; c; i]. split; [assumption|].
    apply matches_trace_pattern. eauto 10.
  - destruct F as [Ld Dd Lt Dt _ _ _ _]. destruct F' as [Ld' _ Lt' _ _ _ _ _].
    rewrite Hb in Hb'.
    destruct (trace_name_stamp_inj _ _ _ _ _ _ _ _ _ _ Ld Lt Ld' Lt' Hb') as [<- <-].
    destruct (strptime_spec d t Ld Dd Lt Dt) as [_ Hbad].
    rewrite (Hbad NV). reflexivity.
Qed.

Lemma parse_trace_filename_invalid_date_witness :
  parse_trace_filename (u "/logs/trace_20260230_2500_AI_News_0f.md.old") = Raise ValueError.
Proof.
  apply (parse_trace_filename_invalid_date _ (u "20260230") (u "2500") (u "AI_News") (u "0f")
           (u ".old")).
  - reflexivity.
  - constructor; try reflexivity; discriminate.
  - unfold valid_stamp. vm_compute. intros (_ & _ & [_ H] & _). apply H. reflexivity.
Defined.

(** Conversely, the only exception of the decoder is that [ValueError],
    and it is raised only for such a name. *)
Lemma parse_trace_filename_raises_only f e :
  parse_trace_filename f = Raise e ->
  e = ValueError
  /\ exists d t c i rest,
      basename f = trace_name d t c i ++ rest /\ trace_fields d t c i /\ ~ valid_stamp d t.
Proof.
  intros H.
  destruct (parse_trace_filename_unfold f)
    as [[_ H'] | (d & t & c & i & rest & Hb & F & _ & H')]; [congruence|].
  rewrite H' in H. pose proof F as [Ld Dd Lt Dt _ _ _ _].
  destruct (strptime_spec d t Ld Dd Lt Dt) as [Hgood Hbad].
  destruct (valid_stamp_dec d t) as [V|NV].
  - destruct (Hgood V) as (dt & S & _). rewrite S in H. discriminate.
  - rewrite (Hbad NV) in H. injection H as <-. split; [reflexivity|]. eauto 10.
Qed.

(** C2 (counterexample): the name [trace_20261301_1229_AI_86eafa6b.md]
    follows the grammar with month 13; the decoder raises instead of
    answering with the no-match result. *)
Lemma parse_trace_filename_month_13 :
  let f := u "trace_20261301_1229_AI_86eafa6b.md" in
  basename f = trace_name (u "20261301") (u "1229") (u "AI") (u "86eafa6b")
  /\ ~ valid_stamp (u "20261301") (u "1229")
  /\ parse_trace_filename f = Raise ValueError
  /\ parse_trace_filename f <> Ok None.
Proof.
  repeat split.
  - unfold valid_stamp. vm_compute. intros (_ & [_ H] & _). apply H. reflexivity.
  - vm_compute. discriminate.
Qed.





(** The category group is greedy: of the prefixes of a name that follow
    the grammar, the one with the longest category is decoded. *)
Example parse_greedy_ex :
  parse_trace_filename (u "trace_20260107_1229_A_ab.md_cd.md")
  = Ok (Some (mk_datetime 2026 1 7 12 29 0, u "A_ab.md", u "cd")).
Proof. vm_compute. reflexivity. Qed.

(** ** StepSegmenter *)


Lemma segment_line_header steps cur line groups rest :
  re_match step_pattern line = Some (groups, rest) ->
  segment_line (steps, cur) line
  = (close_step steps cur,
     Some (mk_Step (nth 0 groups []) (strip (nth 1 groups [])) (nth 2 groups []) [])).
Proof. intros E. unfold segment_line. rewrite E. reflexivity. Qed.

Lemma segment_line_other steps cur line :
  re_match step_pattern line = None ->
  segment_line (steps, cur) line
  = match cur with
    | Some c => (steps, Some (append_line c line))
    | None => (steps, None)
    end.
Proof. intros E. unfold segment_line. rewrite E. reflexivity. Qed.






Example segment_ex :
  segment (u "preamble
## 1. Fetch (12:00:01)
a
## 2. Segment Writer Result (12:00:05)
b
c")
  = [mk_Step (u "1") (u "Fetch") (u "12:00:01") [u "a"];
     mk_Step (u "2") (u "Segment Writer Result") (u "12:00:05") [u "b"; u "c"]].
Proof. vm_compute. reflexivity. Qed.

(** ** The materials block *)

Lemma lstrip_head s c : head (lstrip s) = Some c -> is_space c = false.
Proof.
  induction s as [|x s IH]; simpl; [discriminate|].
  destruct (is_space x) eqn:E; [exact IH|]. simpl. intros [= <-]. exact E.
Qed.

Lemma last_rev_head {A} (l : list A) : last (rev l) = head l.
Proof. destruct l as [|x l]; [reflexivity|]. simpl. apply last_snoc. Qed.

Lemma strip_last s c : last (strip s) = Some c -> is_space c = false.
Proof. unfold strip, rstrip. rewrite last_rev_head. apply lstrip_head. Qed.

(** A stripped line that opens with the bullet has a title after it. *)
Lemma bullet_title_nonempty l :
  is_bullet (strip l) = true -> drop 2 (strip l) <> [].
Proof.
  unfold is_bullet. intros H. apply startswith_spec in H as [t Ht].
  rewrite Ht. change (drop 2 (u "- " ++ t)) with t.
  intros ->. pose proof (strip_last l 32%N) as Hs. rewrite Ht in Hs.
  specialize (Hs eq_refl). discriminate.
Qed.

Lemma material_line_step st l :
  material_line st l
  = if str_eqb (strip l) [] then st else material_step st (strip l).
Proof.
  destruct st as [items cur]. unfold material_line, material_step, is_bullet.
  destruct (strip l) as [|c s]; reflexivity.
Qed.

Lemma material_fold lines :
  forall st,
    fold_left material_line lines st
    = fold_left material_step
        (List.filter (fun l => negb (str_eqb l [])) (map strip lines)) st.
Proof.
  induction lines as [|l lines IH]; intros st; [reflexivity|].
  cbn [fold_left map List.filter]. rewrite material_line_step.
  destruct (str_eqb (strip l) []); cbn [negb fold_left]; apply IH.
Qed.

Lemma title_line_extend it l : title_line (extend_item it l) = title_line it.
Proof.
  unfold extend_item.
  destruct (startswith SUMMARY_LABEL l); [reflexivity|].
  destruct (startswith SOURCE_LABEL l); reflexivity.
Qed.

Lemma title_line_fold ls : forall it, title_line (fold_left extend_item ls it) = title_line it.
Proof.
  induction ls as [|l ls IH]; intros it; [reflexivity|].
  cbn [fold_left]. rewrite IH. apply title_line_extend.
Qed.

Lemma labels_differ l : startswith SOURCE_LABEL l = true -> startswith SUMMARY_LABEL l = false.
Proof.
  destruct l as [|c l]; [discriminate|].
  change SOURCE_LABEL with [26469%N; 28304%N; 58%N].
  change SUMMARY_LABEL with [25688%N; 35201%N; 58%N].
  cbn [startswith]. intros H. apply andb_true_iff in H as [H _].
  apply N.eqb_eq in H. subst c. reflexivity.
Qed.

(** The fields of an entry start empty and only grow by continuation
    lines: the source stays empty without a line that carries the
    source label, and the summary stays empty when every continuation
    line carries it. *)
Lemma source_fold ls :
  forall it,
    Forall (fun l => startswith SOURCE_LABEL l = false) ls ->
    source (fold_left extend_item ls it) = source it.
Proof.
  induction ls as [|l ls IH]; intros it H; [reflexivity|].
  inversion H as [|? ? Hl Hls]; subst. cbn [fold_left]. rewrite (IH _ Hls).
  unfold extend_item. rewrite Hl. destruct (startswith SUMMARY_LABEL l); reflexivity.
Qed.

Lemma summary_fold ls :
  forall it,
    Forall (fun l => startswith SOURCE_LABEL l = true) ls ->
    summary (fold_left extend_item ls it) = summary it.
Proof.
  induction ls as [|l ls IH]; intros it H; [reflexivity|].
  inversion H as [|? ? Hl Hls]; subst. cbn [fold_left]. rewrite (IH _ Hls).
  unfold extend_item. rewrite (labels_differ _ Hl), Hl. reflexivity.
Qed.

Lemma material_step_fold lines :
  forall items cur,
  exists pre blocks,
    lines = pre ++ lines_of blocks
    /\ Forall (fun l => is_bullet l = false) pre
    /\ blocks_of is_bullet blocks
    /\ close_items (fold_left material_step lines (items, cur))
       = close_item items (option_map (fold_left extend_item pre) cur)
         ++ map entry_of blocks.
Proof.
  induction lines as [|line lines IH]; intros items cur.
  - exists [], []. repeat split; try constructor.
    cbn [fold_left map]. unfold close_items; cbn [fst snd].
    rewrite app_nil_r. destruct cur; reflexivity.
  - cbn [fold_left]. unfold material_step at 2. cbn [fst snd].
    destruct (is_bullet line) eqn:B.
    + destruct (IH (close_item items cur) (Some (mk_MaterialEntry (drop 2 line) [] [])))
        as (pre & blocks & Hl & Hpre & Hblocks & Hst).
      exists [], ((line, pre) :: blocks). repeat split.
      * rewrite Hl. reflexivity.
      * constructor.
      * constructor; [|exact Hblocks]. split; assumption.
      * rewrite Hst. cbn [option_map close_item map fold_left].
        unfold entry_of at 2; cbn [fst snd]. rewrite <- app_assoc.
        destruct cur; reflexivity.
    + destruct cur as [it|].
      * destruct (IH items (Some (extend_item it line)))
          as (pre & blocks & Hl & Hpre & Hblocks & Hst).
        exists (line :: pre), blocks. repeat split;
          [rewrite Hl; reflexivity|constructor; assumption|assumption|].
        rewrite Hst. reflexivity.
      * destruct (IH items None) as (pre & blocks & Hl & Hpre & Hblocks & Hst).
        exists (line :: pre), blocks. repeat split;
          [rewrite Hl; reflexivity|constructor; assumption|assumption|].
        rewrite Hst. reflexivity.
Qed.

Lemma material_lines_stripped materials_raw :
  Forall (fun l => exists l0, l = strip l0) (material_lines materials_raw).
Proof.
  unfold material_lines. apply Forall_forall. intros l Hl.
  apply list_elem_of_In, filter_In in Hl as [Hl _].
  apply in_map_iff in Hl as (l0 & <- & _). exists l0. reflexivity.
Qed.

Lemma head_in_lines_of (b : list N * list (list N)) blocks :
  b ∈ blocks -> b.1 ∈ lines_of blocks.
Proof.
  intros H. unfold lines_of. apply list_elem_of_In, in_concat.
  exists (b.1 :: b.2). split; [|left; reflexivity].
  apply in_map_iff. exists b. split; [reflexivity|]. apply list_elem_of_In. exact H.
Qed.

(** C8: the entries of a materials block are those of its bullets, in
    order, each built from the continuation lines that follow the
    bullet; every entry has a title line that is not empty; its summary
    and its source are strings that are empty when the bullet has no
    continuation line, the source staying empty as long as no
    continuation line carries the source label and the summary when all
    of them do. *)
Theorem parse_materials_entries materials_raw :
  Forall (fun e => title_line e <> []) (parse_materials materials_raw)
  /\ (exists pre blocks,
        material_lines materials_raw = pre ++ lines_of blocks
        /\ Forall (fun l => is_bullet l = false) pre
        /\ blocks_of is_bullet blocks
        /\ parse_materials materials_raw = map entry_of blocks)
  /\ (forall b, b.2 = [] -> summary (entry_of b) = [] /\ source (entry_of b) = [])
  /\ (forall b, Forall (fun l => startswith SOURCE_LABEL l = false) b.2 ->
                source (entry_of b) = [])
  /\ (forall b, Forall (fun l => startswith SOURCE_LABEL l = true) b.2 ->
                summary (entry_of b) = []).
Proof.
  destruct (material_step_fold (material_lines materials_raw) [] None)
    as (pre & blocks & Hl & Hpre & Hblocks & Hst).
  assert (parse_materials materials_raw = map entry_of blocks) as Hp.
  { unfold parse_materials. rewrite material_fold. fold (material_lines materials_raw).
    cbn [option_map close_item app] in Hst. rewrite <- Hst. unfold close_items.
    destruct (fold_left material_step (material_lines materials_raw) ([], None));
      reflexivity. }
  split; [|split; [|split; [|split]]].
  - rewrite Hp. apply Forall_forall. intros e He.
    apply list_elem_of_In, in_map_iff in He as (b & <- & Hb).
    apply list_elem_of_In in Hb.
    unfold entry_of. rewrite title_line_fold. cbn [title_line].
    pose proof (material_lines_stripped materials_raw) as Hs.
    rewrite Forall_forall in Hs.
    destruct (Hs b.1) as [l0 E].
    { rewrite Hl. apply elem_of_app. right. apply head_in_lines_of. exact Hb. }
    rewrite E. apply bullet_title_nonempty. rewrite <- E.
    unfold blocks_of in Hblocks. rewrite Forall_forall in Hblocks.
    exact (proj1 (Hblocks b Hb)).
  - exists pre, blocks. auto.
  - intros b Hb. unfold entry_of. rewrite Hb. auto.
  - intros b Hb. unfold entry_of. rewrite source_fold by assumption. reflexivity.
  - intros b Hb. unfold entry_of. rewrite summary_fold by assumption. reflexivity.
Qed.

Lemma parse_materials_entries_witness :
  Forall (fun e => title_line e <> [])
         (parse_materials (u "- [AI] Big model released
  摘要: A lab released a model.
- Second story"))
  /\ source (entry_of (u "- Second story", [u "摘要: only a summary"])) = [].
Proof.
  split.
  - exact (proj1 (parse_materials_entries _)).
  - apply (proj1 (proj2 (proj2 (proj2 (parse_materials_entries [])))) ).
    repeat constructor.
Defined.

Example parse_materials_ex :
  parse_materials (u "
- [AI] Big model released
  摘要: A lab released a model.
  来源: Example News
  more text

- Second story
")
  = [mk_MaterialEntry (u "[AI] Big model released")
       (u "A lab released a model. more text") (u "Example News");
     mk_MaterialEntry (u "Second story") [] []].
Proof. vm_compute. reflexivity. Qed.

(** ** SourceReconciler *)




Lemma replace_newlines s : replace nl (u " ") s = flatten_newlines s.
Proof.
  unfold replace, nl. change (u " ") with [32%N].
  induction s as [|c s IH]; [reflexivity|].
  cbn [replace_from flatten_newlines map startswith length Nat.pred].
  rewrite andb_true_r, N.eqb_sym.
  destruct (c =? NL)%N; cbn [app]; f_equal; exact IH.
Qed.

Lemma flatten_newlines_nil s : flatten_newlines s = [] <-> s = [].
Proof. destruct s; simpl; split; congruence. Qed.

Lemma final_summary_spec ns it :
  let db := default [] (source_summary ns) in
  (db <> [] /\ (length (summary it) < length db)%nat ->
   final_summary ns it = flatten_newlines db)
  /\ (~ (db <> [] /\ (length (summary it) < length db)%nat) ->
      final_summary ns it = summary it).
Proof.
  cbv zeta. unfold final_summary. rewrite replace_newlines.
  set (db := default [] (source_summary ns)).
  assert (length (flatten_newlines db) = length db) as L
      by (unfold flatten_newlines; apply length_map).
  rewrite L.
  destruct (str_eqb (flatten_newlines db) []) eqn:E1; cbn [negb andb].
  - apply str_eqb_nil in E1. apply (proj1 (flatten_newlines_nil db)) in E1.
    split; [intros [H _]; congruence | reflexivity].
  - assert (db <> []) as Hne.
    { intros H. apply (proj2 (flatten_newlines_nil db)) in H.
      apply str_eqb_nil in H. congruence. }
    destruct (Nat.ltb_spec (length (summary it)) (length db)).
    + split; [reflexivity | intros H'; exfalso; apply H'; auto].
    + split; [intros [_ H']; lia | reflexivity].
Qed.



Example reconcile_ex :
  let it := mk_MaterialEntry (u "[AI] Big model released") (u "short") [] in
  let s1 := mk_SourceRecord (Some (u "Unrelated")) (Some (u "x")) None in
  let s2 := mk_SourceRecord (Some (u "Lab says: Big model released today"))
                            (Some (u "A much
longer text")) (Some (u "https://a.example/1")) in
  let s3 := mk_SourceRecord (Some (u "Big model released")) (Some (u "other")) None in
  find_source (title_line it) [s1; s2; s3] = Some s2
  /\ final_summary s2 it = u "A much longer text"
  /\ render_entry [s1; s2; s3] it
     = u "- 🟢 **Lab says: Big model released today**
  > A much longer text

  *Source: https://a.example/1*
".
Proof. vm_compute. repeat split; reflexivity. Qed.

(** ** ReportBuilder *)








(** A whole report: a plan step with principles but no planned order,
    a writer step with materials and a response, and a writer step
    without response. *)
Example generate_story_report_ex :
  generate_story_report (fun _ => 0) (fun _ => None)
    (mk_Item (Some (u "abc123")) (Some (u "Daily AI")) (Some (u "AI")) (Some 1767788940) (Some 95))
    (u "header junk
## 1. Plan Episode Flow (12:00:00)
**LLM Prompt**:
```text
Role: planner
1. **Flow**: keep it smooth
2. **Hook**: start strong
Items:
- ab12: [AI] Big model released  
- cd34: Other story
```
## 2. Segment Writer Result (12:00:05)
**LLM Prompt**:
【新闻素材】
- [AI] Big model released
  摘要: A lab released a model.
  来源: Example News
- Unknown story
【核心要求】
be brief
**LLM Response**:
```text
  Hello world.  
```
## 3. Segment Writer Result (12:00:09)
no response")
    [mk_SourceRecord (Some (u "Big model released"))
       (Some (u "A very long summary
over two lines, longer than the trace one.")) (Some (u "https://x.example/a"))]
  = Ok (u "# 🎙️ FreshLoop Story Journey: Daily AI

- **Category**: AI
- **Publish Time**: 2026-01-07 12:29:00
- **Duration**: 95s
- **Nexus ID**: `abc123`

---

## 🎬 Chapter 1: The Final Script

> This is the final audio content delivered to the user.

### Segment 1

Hello world.

---

## 📐 Chapter 2: The Blueprint (Planning)

> How the AI decided to arrange the stories.

### Core Principles Used:
- 1. **Flow**: keep it smooth
- 2. **Hook**: start strong


---

## 🏭 Chapter 3: Production Log (Deep Dive)

> Detailed view of sources and transformation for each segment.

### Segment 1 Production
**Input Sources:**
- 🟢 **Big model released**
  > A very long summary over two lines, longer than the trace one.

  *Source: https://x.example/a*
- ⚪ **Unknown story** *(From Log)*

**LLM Output (Final Draft)**:
```text
Hello world.
```

### Segment 2 Production
**LLM Output (Final Draft)**:

").
Proof. vm_compute. reflexivity. Qed.

(** * Further properties *)

(** ** TraceMatcher: what is returned, and when *)

Lemma decodes_dec f : decodes f \/ ~ decodes f.
Proof.
  unfold decodes. destruct (parse_trace_filename f) as [r|e].
  - left. discriminate.
  - right. intros H. exact (H e eq_refl).
Qed.

Lemma scan_traces_raise lower cat pdt files :
  forall acc e,
    scan_traces lower cat pdt files acc = Raise e ->
    exists f, f ∈ files /\ parse_trace_filename f = Raise e.
Proof.
  induction files as [|f fs IH]; intros acc e; simpl; [discriminate|].
  destruct (parse_trace_filename f) as [[[[dt c] tid]|]|e'] eqn:P.
  - intros H.
    assert (exists acc', scan_traces lower cat pdt fs acc' = Raise e) as [acc' H'].
    { destruct (negb _); [eauto|]. destruct (dt_gt dt pdt); [eauto|].
      destruct (_ >? 3600); eauto. }
    destruct (IH _ _ H') as (f' & Hin & Hf'). exists f'. split; [|assumption].
    apply list_elem_of_further. assumption.
  - intros H. destruct (IH _ _ H) as (f' & Hin & Hf'). exists f'. split; [|assumption].
    apply list_elem_of_further. assumption.
  - intros [= ->]. exists f. split; [apply list_elem_of_here | assumption].
Qed.

Lemma first_min_least l y b : first_min l = Some y -> b ∈ l -> y.1 <= b.1.
Proof.
  revert y; induction l as [|a l IH]; simpl; intros y Hy Hb; [discriminate|].
  apply elem_of_cons in Hb.
  destruct (first_min l) as [z|] eqn:E.
  - destruct (Z.leb_spec a.1 z.1); injection Hy as <-.
    + destruct Hb as [-> | Hb]; [lia|]. specialize (IH z eq_refl Hb). lia.
    + destruct Hb as [-> | Hb]; [lia|]. exact (IH z eq_refl Hb).
  - injection Hy as <-. destruct Hb as [-> | Hb]; [lia|].
    destruct l as [|c l]; [apply elem_of_nil in Hb; destruct Hb|].
    simpl in E. destruct (first_min l) as [w|]; [destruct (c.1 <=? w.1)|]; discriminate.
Qed.

Lemma first_min_none l : first_min l = None <-> l = [].
Proof.
  split; [|intros ->; reflexivity].
  destruct l as [|a l]; [reflexivity|]. simpl.
  destruct (first_min l) as [y|]; [destruct (a.1 <=? y.1)|]; discriminate.
Qed.

(** The three outcomes of the search for an item with a usable publish
    time. *)
Lemma find_matching_trace_cases utcoffset lower files it ts pdt :
  publish_time it = Some ts -> ts <> 0 -> fromtimestamp utcoffset ts = Ok pdt ->
  match (find_matching_trace utcoffset lower files it).2 with
  | Raise e => e = ValueError /\ exists f, f ∈ files /\ ~ decodes f
  | Ok None =>
    Forall decodes files
    /\ forall f, f ∈ files -> eligible_gap lower (target_category_of it) pdt f = None
  | Ok (Some p) =>
    Forall decodes files /\ p ∈ files
    /\ exists g, eligible_gap lower (target_category_of it) pdt p = Some g
       /\ forall f g', f ∈ files ->
                       eligible_gap lower (target_category_of it) pdt f = Some g' -> g <= g'
  end.
Proof.
  intros Hts Hnz Hdt.
  rewrite (find_matching_trace_unfold _ _ _ _ ts pdt Hts Hnz Hdt).
  destruct (scan_traces _ _ _ _ _) as [cands|e] eqn:S.
  - apply scan_traces_spec in S as [Hdec ->]. cbn [app].
    destruct (first_min _) as [[g f]|] eqn:M; cbn [snd].
    + pose proof (first_min_elem _ _ M) as Hin. apply survivors_elem in Hin as [Hin G].
      split; [exact Hdec|]. split; [exact Hin|]. exists g. split; [exact G|].
      intros f' g' Hf' G'.
      assert ((g', f') ∈ survivors lower (target_category_of it) pdt files) as Hs
          by (apply survivors_elem; auto).
      exact (first_min_least _ _ _ M Hs).
    + split; [exact Hdec|].
      apply first_min_none in M. intros f Hin.
      destruct (eligible_gap lower (target_category_of it) pdt f) as [g|] eqn:G; [|reflexivity].
      assert ((g, f) ∈ survivors lower (target_category_of it) pdt files) as Hs
          by (apply survivors_elem; auto).
      rewrite M in Hs. apply elem_of_nil in Hs. destruct Hs.
  - apply scan_traces_raise in S as (f & Hin & Hf).
    split; [exact (proj1 (parse_trace_filename_raises_only f e Hf))|].
    exists f. split; [exact Hin|]. intros H. exact (H _ Hf).
Qed.

(** X1: the trace returned is a listed file that passes the filters, and no
    listed file that passes them is closer to the publish time. *)
Theorem find_matching_trace_closest utcoffset lower files it ts pdt p :
  publish_time it = Some ts -> ts <> 0 -> fromtimestamp utcoffset ts = Ok pdt ->
  (find_matching_trace utcoffset lower files it).2 = Ok (Some p) ->
  p ∈ files
  /\ exists g, eligible_gap lower (target_category_of it) pdt p = Some g
     /\ forall f g', f ∈ files ->
                     eligible_gap lower (target_category_of it) pdt f = Some g' -> g <= g'.
Proof.
  intros Hts Hnz Hdt Hp.
  pose proof (find_matching_trace_cases utcoffset lower files it ts pdt Hts Hnz Hdt) as C.
  rewrite Hp in C. exact (proj2 C).
Qed.

Lemma find_matching_trace_closest_witness :
  let files := [u "/t/trace_20260107_1209_AI_0a.md"; u "/t/trace_20260107_1219_AI_1b.md";
                u "/t/trace_20260107_1100_AI_3d.md"; u "/t/trace_20260107_1225_Tech_4e.md"] in
  let p := u "/t/trace_20260107_1219_AI_1b.md" in
  p ∈ files
  /\ exists g, eligible_gap ascii_lower (u "AI") (mk_datetime 2026 1 7 12 29 0) p = Some g
     /\ forall f g', f ∈ files ->
                     eligible_gap ascii_lower (u "AI") (mk_datetime 2026 1 7 12 29 0) f = Some g'
                     -> g <= g'.
Proof.
  apply (find_matching_trace_closest (fun _ => 0) ascii_lower _
           (mk_Item None None (Some (u "AI")) (Some 1767788940) None) 1767788940).
  - reflexivity.
  - lia.
  - vm_compute. reflexivity.
  - vm_compute. reflexivity.
Defined.

(** X2: nothing is returned exactly when every listed name decodes and no
    listed file passes the filters. *)
Theorem find_matching_trace_none_iff utcoffset lower files it ts pdt :
  publish_time it = Some ts -> ts <> 0 -> fromtimestamp utcoffset ts = Ok pdt ->
  (find_matching_trace utcoffset lower files it).2 = Ok None
  <-> Forall decodes files
      /\ forall f, f ∈ files -> eligible_gap lower (target_category_of it) pdt f = None.
Proof.
  intros Hts Hnz Hdt.
  pose proof (find_matching_trace_cases utcoffset lower files it ts pdt Hts Hnz Hdt) as C.
  destruct (find_matching_trace utcoffset lower files it).2 as [[p|]|e].
  - split; [discriminate|]. intros [_ H].
    destruct C as (_ & Hin & g & G & _). rewrite (H p Hin) in G. discriminate.
  - split; [intros _; exact C | reflexivity].
  - split; [discriminate|]. intros [Hdec _].
    destruct C as (_ & f & Hin & Hf). rewrite Forall_forall in Hdec.
    destruct (Hf (Hdec f Hin)).
Qed.

Lemma find_matching_trace_none_iff_witness :
  (find_matching_trace (fun _ => 0) ascii_lower
     [u "/t/trace_20260107_1100_AI_3d.md"; u "/t/trace_20260107_1225_Tech_4e.md";
      u "/t/trace_20260107_1230_AI_5f.md"; u "/t/notes.md"]
     (mk_Item None None (Some (u "AI")) (Some 1767788940) None)).2 = Ok None.
Proof.
  apply (proj2 (find_matching_trace_none_iff (fun _ => 0) ascii_lower _
                  (mk_Item None None (Some (u "AI")) (Some 1767788940) None) 1767788940
                  (mk_datetime 2026 1 7 12 29 0) eq_refl ltac:(lia) ltac:(vm_compute; reflexivity))).
  split.
  - repeat constructor; intros e; vm_compute; discriminate.
  - intros f Hin.
    repeat (apply elem_of_cons in Hin as [-> | Hin]; [vm_compute; reflexivity|]).
    apply elem_of_nil in Hin. destruct Hin.
Defined.



(** X4: the order of the listing matters only among ties: for a listing in
    another order the search fails, finds nothing or finds a trace in
    the same cases, and a trace found is as close to the publish time.
    When one listed file is strictly the closest, it is returned for
    every order. *)
Theorem find_matching_trace_permutation utcoffset lower files files' it ts pdt :
  publish_time it = Some ts -> ts <> 0 -> fromtimestamp utcoffset ts = Ok pdt ->
  Permutation files files' ->
  let gap := eligible_gap lower (target_category_of it) pdt in
  let r := (find_matching_trace utcoffset lower files it).2 in
  let r' := (find_matching_trace utcoffset lower files' it).2 in
  (forall e, r = Raise e <-> r' = Raise e)
  /\ (r = Ok None <-> r' = Ok None)
  /\ (forall p, r = Ok (Some p) ->
        exists p' g, r' = Ok (Some p') /\ gap p = Some g /\ gap p' = Some g
                     /\ ((forall f, f ∈ files -> gap f = Some g -> f = p) -> p' = p)).
Proof.
  intros Hts Hnz Hdt HP gap r r'.
  assert (forall f, f ∈ files <-> f ∈ files') as Hmem
      by (intros f; split; intros H; [rewrite <- HP | rewrite HP]; exact H).
  assert (Forall decodes files <-> Forall decodes files') as Hdec
      by (rewrite !Forall_forall; split; intros H f Hin; apply H, Hmem, Hin).
  pose proof (find_matching_trace_cases utcoffset lower files it ts pdt Hts Hnz Hdt) as C.
  pose proof (find_matching_trace_cases utcoffset lower files' it ts pdt Hts Hnz Hdt) as C'.
  fold r in C. fold r' in C'. fold gap in C, C'.
  assert (forall f, f ∈ files -> ~ decodes f -> ~ Forall decodes files) as Hbad
      by (intros f Hin Hf H; rewrite Forall_forall in H; exact (Hf (H f Hin))).
  destruct r as [[p|]|e]; destruct r' as [[p'|]|e'].
  - destruct C as (_ & Hin & g & G & Hmin). destruct C' as (_ & Hin' & g' & G' & Hmin').
    pose proof (Hmin p' g' (proj2 (Hmem p') Hin') G').
    pose proof (Hmin' p g (proj1 (Hmem p) Hin) G).
    assert (g' = g) as -> by lia.
    split; [intros e; split; discriminate|]. split; [split; discriminate|].
    intros p0 [= <-]. exists p', g. repeat split; try assumption.
    intros Huniq. apply Huniq; [apply Hmem; exact Hin' | exact G'].
  - destruct C as (_ & Hin & g & G & _). destruct C' as [_ Hnone].
    rewrite (Hnone p (proj1 (Hmem p) Hin)) in G. discriminate.
  - destruct C as (D & _). destruct C' as (_ & f & Hin & Hf).
    destruct (Hbad f (proj2 (Hmem f) Hin) Hf D).
  - destruct C' as (_ & Hin & g & G & _). destruct C as [_ Hnone].
    rewrite (Hnone p' (proj2 (Hmem p') Hin)) in G. discriminate.
  - split; [intros e; split; discriminate|]. split; [tauto|]. intros p; discriminate.
  - destruct C as (D & _). destruct C' as (_ & f & Hin & Hf).
    destruct (Hbad f (proj2 (Hmem f) Hin) Hf D).
  - destruct C' as (D & _). destruct C as (_ & f & Hin & Hf).
    destruct (Hbad f Hin Hf (proj2 Hdec D)).
  - destruct C' as (D & _). destruct C as (_ & f & Hin & Hf).
    destruct (Hbad f Hin Hf (proj2 Hdec D)).
  - destruct C as [-> _]. destruct C' as [-> _].
    split; [intros e; tauto|]. split; [split; discriminate|]. intros p; discriminate.
Qed.

Lemma find_matching_trace_permutation_witness :
  let it := mk_Item None None (Some (u "AI")) (Some 1767788940) None in
  let a := u "/t/trace_20260107_1209_AI_0a.md" in
  let b := u "/t/trace_20260107_1219_AI_1b.md" in
  let c := u "/t/trace_20260107_1219_ai_2c.md" in
  (find_matching_trace (fun _ => 0) ascii_lower [a; b; c] it).2 = Ok (Some b)
  /\ exists p' g,
      (find_matching_trace (fun _ => 0) ascii_lower [c; a; b] it).2 = Ok (Some p')
      /\ eligible_gap ascii_lower (target_category_of it) (mk_datetime 2026 1 7 12 29 0) b = Some g
      /\ eligible_gap ascii_lower (target_category_of it) (mk_datetime 2026 1 7 12 29 0) p' = Some g.
Proof.
  intros it a b c.
  assert ((find_matching_trace (fun _ => 0) ascii_lower [a; b; c] it).2 = Ok (Some b)) as E
      by (vm_compute; reflexivity).
  split; [exact E|].
  destruct (find_matching_trace_permutation (fun _ => 0) ascii_lower [a; b; c] [c; a; b] it
              1767788940 (mk_datetime 2026 1 7 12 29 0)) as (_ & _ & H).
  - reflexivity.
  - lia.
  - vm_compute. reflexivity.
  - change [c; a; b] with ([c] ++ [a; b]). change [a; b; c] with ([a; b] ++ [c]).
    apply Permutation_app_comm.
  - destruct (H b E) as (p' & g & R & G & G' & _). exists p', g. auto.
Defined.

(** X5: a trace that is returned is one of the listed files, its name
    decodes, its category equals that of the item up to case, and its
    stamp, read as local time, is at most 3600 seconds before the
    publish time and not after it. *)
Theorem find_matching_trace_window utcoffset lower files it p :
  (find_matching_trace utcoffset lower files it).2 = Ok (Some p) ->
  exists ts dt cat tid,
    publish_time it = Some ts /\ ts <> 0
    /\ p ∈ files
    /\ parse_trace_filename p = Ok (Some (dt, cat, tid))
    /\ lower cat = lower (target_category_of it)
    /\ ts + utcoffset ts - 3600 <= epoch_seconds dt <= ts + utcoffset ts.
Proof.
  intros H.
  destruct (find_matching_trace utcoffset lower files it) as [out r] eqn:E.
  cbn [snd] in H. subst r.
  destruct (find_matching_trace_filters _ _ _ _ _ _ E)
    as (ts & pdt & dt & cat & tid & Hts & Hdt & Hin & P & L & _ & Ep & Sub & Hb).
  exists ts, dt, cat, tid. repeat split; try assumption; try lia.
  intros ->. unfold find_matching_trace in E. rewrite Hts in E. discriminate.
Qed.

Lemma find_matching_trace_window_witness :
  let it := mk_Item None None (Some (u "AI")) (Some 1767788940) None in
  let p := u "/t/trace_20260107_1419_ai_1b.md" in
  exists ts dt cat tid,
    publish_time it = Some ts /\ ts <> 0
    /\ p ∈ [u "/t/trace_20260107_1100_AI_3d.md"; p]
    /\ parse_trace_filename p = Ok (Some (dt, cat, tid))
    /\ ascii_lower cat = ascii_lower (target_category_of it)
    /\ ts + 7200 - 3600 <= epoch_seconds dt <= ts + 7200.
Proof.
  intros it p.
  apply (find_matching_trace_window (fun _ => 7200) ascii_lower
           [u "/t/trace_20260107_1100_AI_3d.md"; p] it p).
  vm_compute. reflexivity.
Defined.

Lemma replace_space_free s : 32%N ∉ replace (u " ") (u "_") s.
Proof.
  unfold replace. induction s as [|c s IH]; [apply not_elem_of_nil|].
  cbn [replace_from]. change (startswith (u " ") (c :: s)) with ((32 =? c)%N && true).
  destruct (N.eqb_spec 32 c) as [<-|Hc]; cbn [andb].
  - change (u "_" ++ ?x) with (95%N :: x). cbn [length Nat.pred u] .
    intros H. apply elem_of_cons in H as [H|H]; [discriminate | exact (IH H)].
  - intros H. apply elem_of_cons in H as [H|H]; [congruence | exact (IH H)].
Qed.

Lemma ascii_lower_space s : 32%N ∈ ascii_lower s <-> 32%N ∈ s.
Proof.
  unfold ascii_lower. rewrite list_elem_of_fmap. split.
  - intros (c & Hc & Hin).
    assert (c = 32%N) as ->; [|exact Hin].
    unfold ascii_lower_char in Hc.
    destruct ((65 <=? c)%N && (c <=? 90)%N) eqn:B; [|congruence].
    apply andb_true_iff in B as [B1 B2]. apply N.leb_le in B1, B2. lia.
  - intros Hin. exists 32%N. split; [reflexivity | exact Hin].
Qed.

(** X6: spaces are replaced by underscores in the category of the item only,
    so a trace whose category holds a space is never returned (for a case
    mapping that neither adds nor removes spaces, as [str.lower] is). *)
Theorem find_matching_trace_space_category utcoffset lower files it p dt cat tid :
  (forall s, 32%N ∈ lower s <-> 32%N ∈ s) ->
  (find_matching_trace utcoffset lower files it).2 = Ok (Some p) ->
  parse_trace_filename p = Ok (Some (dt, cat, tid)) ->
  32%N ∉ cat.
Proof.
  intros Hl H P.
  destruct (find_matching_trace utcoffset lower files it) as [out r] eqn:E.
  cbn [snd] in H. subst r.
  destruct (find_matching_trace_filters _ _ _ _ _ _ E)
    as (ts & pdt & dt' & cat' & tid' & _ & _ & _ & P' & L & _).
  rewrite P in P'. injection P' as <- <- <-.
  intros Hin. apply (proj2 (Hl cat)) in Hin. rewrite L in Hin.
  apply (proj1 (Hl _)) in Hin.
  exact (replace_space_free _ Hin).
Qed.

Lemma find_matching_trace_space_category_witness :
  32%N ∉ u "hacker_news".
Proof.
  apply (find_matching_trace_space_category (fun _ => 0) ascii_lower
           [u "/t/trace_20260107_1219_Hacker News_1b.md"; u "/t/trace_20260107_1209_hacker_news_0a.md"]
           (mk_Item None None (Some (u "Hacker News")) (Some 1767788940) None)
           (u "/t/trace_20260107_1209_hacker_news_0a.md")
           (mk_datetime 2026 1 7 12 9 0) (u "hacker_news") (u "0a")).
  - exact ascii_lower_space.
  - vm_compute. reflexivity.
  - vm_compute. reflexivity.
Defined.

(** ** FilenameCodec: directories, round trip, the greedy category *)

Lemma split_nonempty sep s : split sep s <> [].
Proof.
  destruct s as [|c s]; simpl; [discriminate|].
  destruct (c =? sep)%N; [discriminate|].
  destruct (split sep s); discriminate.
Qed.

(** Splitting a text at a separator splits the parts before and after
    one of its occurrences independently. *)
Lemma split_app_sep sep a b : split sep (a ++ sep :: b) = split sep a ++ split sep b.
Proof.
  induction a as [|c a IH]; simpl.
  - rewrite N.eqb_refl. reflexivity.
  - destruct (c =? sep)%N; [rewrite IH; reflexivity|].
    rewrite IH. pose proof (split_nonempty sep a).
    destruct (split sep a) as [|l ls]; [congruence | reflexivity].
Qed.

Lemma split_no_sep sep s : sep ∉ s -> split sep s = [s].
Proof.
  induction s as [|c s IH]; intros H; simpl; [reflexivity|].
  rewrite not_elem_of_cons in H. destruct H as [Hc Hs].
  destruct (N.eqb_spec c sep); [congruence|]. rewrite (IH Hs). reflexivity.
Qed.

Lemma split_parts_no_sep sep s : Forall (fun l => sep ∉ l) (split sep s).
Proof.
  induction s as [|c s IH]; simpl.
  - repeat constructor. apply not_elem_of_nil.
  - destruct (N.eqb_spec c sep) as [->|Hc].
    + constructor; [apply not_elem_of_nil | exact IH].
    + destruct (split sep s) as [|l ls]; [repeat constructor|].
      * rewrite not_elem_of_cons. split; [congruence | apply not_elem_of_nil].
      * inversion IH; subst. constructor; [|assumption].
        rewrite not_elem_of_cons. split; [congruence | assumption].
Qed.

Lemma last_app_nonempty {A} (l1 l2 : list A) : l2 <> [] -> last (l1 ++ l2) = last l2.
Proof.
  intros H. destruct (last l2) as [x|] eqn:E.
  - rewrite last_Some in E. destruct E as [l' ->].
    rewrite app_assoc. apply last_snoc.
  - apply last_None in E. congruence.
Qed.

Lemma basename_app dir name : basename (dir ++ 47%N :: name) = basename name.
Proof.
  unfold basename. rewrite split_app_sep, last_app_nonempty by apply split_nonempty.
  reflexivity.
Qed.

Lemma basename_no_slash s : 47%N ∉ basename s.
Proof.
  unfold basename. pose proof (split_parts_no_sep 47%N s) as H.
  destruct (last (split 47%N s)) as [l|] eqn:E; [|apply not_elem_of_nil].
  rewrite Forall_forall in H. apply H. rewrite last_Some in E. destruct E as [l' ->].
  apply elem_of_app. right. apply list_elem_of_here.
Qed.

Lemma basename_id s : 47%N ∉ s -> basename s = s.
Proof. intros H. unfold basename. rewrite split_no_sep by assumption. reflexivity. Qed.

(** X7: only the text after the last slash of a path is decoded: the
    directory part never matters, even when it looks like a trace name,
    and a path that ends in a slash is answered by the no-match result. *)
Theorem parse_trace_filename_dirname dir name :
  parse_trace_filename (dir ++ u "/" ++ name) = parse_trace_filename name
  /\ parse_trace_filename (dir ++ u "/") = Ok None.
Proof.
  unfold parse_trace_filename. change (u "/" ++ name) with (47%N :: name).
  change (u "/") with [47%N]. rewrite !basename_app. split; reflexivity.
Qed.

(** X8: the fields that [parse_trace_filename] returns name the trace:
    writing them back in the form of the grammar gives a name that
    decodes to the same fields. *)
Theorem parse_trace_filename_round_trip f dt c i :
  parse_trace_filename f = Ok (Some (dt, c, i)) ->
  parse_trace_filename (trace_name (encode_date dt) (encode_time dt) c i)
  = Ok (Some (dt, c, i)).
Proof.
  intros H.
  destruct (parse_trace_filename_unfold f)
    as [[_ Hn] | (d & t & c' & i' & rest & Hb & F & _ & Hp)]; [congruence|].
  rewrite H in Hp.
  destruct (strptime d t) as [dt'|e] eqn:S; [|discriminate].
  injection Hp as -> -> ->.
  pose proof F as [Ld Dd Lt Dt _ _ _ _].
  destruct (strptime_spec d t Ld Dd Lt Dt) as [Hv Hbad].
  destruct (valid_stamp_dec d t) as [V|NV]; [|rewrite (Hbad NV) in S; discriminate].
  destruct (Hv V) as (dt0 & S0 & Ed & Et). rewrite S in S0. injection S0 as <-.
  rewrite Ed, Et.
  assert (47%N ∉ trace_name d t c' i') as Hs.
  { pose proof (basename_no_slash f) as Hf. rewrite Hb in Hf.
    intros Hin. apply Hf. apply elem_of_app. left. exact Hin. }
  unfold parse_trace_filename.
  rewrite (basename_id _ Hs), (re_match_trace_name d t c' i' F), S. reflexivity.
Qed.

Lemma parse_trace_filename_round_trip_witness :
  parse_trace_filename (u "trace_20240229_2359_AI_News_0f3a.md")
  = Ok (Some (mk_datetime 2024 2 29 23 59 0, u "AI_News", u "0f3a")).
Proof.
  apply (parse_trace_filename_round_trip (u "/var/log/trace_20240229_2359_AI_News_0f3a.md.bak")
           (mk_datetime 2024 2 29 23 59 0) (u "AI_News") (u "0f3a")).
  vm_compute. reflexivity.
Defined.

Section GreedyLongest.
Context {R : Type}.

(** The greedy run is the longest one that the continuation accepts. *)
Lemma star_greedy_longest p s (k : list N -> option R) x :
  star_greedy p s k = Some x ->
  exists w s', s = w ++ s' /\ forallb p w = true /\ k s' = Some x
    /\ forall w2 s2, s = w2 ++ s2 -> forallb p w2 = true ->
                     (length w < length w2)%nat -> k s2 = None.
Proof.
  induction s as [|c s IH]; simpl.
  - intros H. exists [], []. repeat split; try assumption.
    intros w2 s2 E _ L. symmetry in E. apply app_eq_nil in E as [-> _]. simpl in L. lia.
  - destruct (p c) eqn:Pc.
    + destruct (star_greedy p s k) as [r|] eqn:G.
      * intros [= <-]. destruct (IH eq_refl) as (w & s' & -> & Hw & Hk & Hmax).
        exists (c :: w), s'. simpl. rewrite Pc, Hw. repeat split; try assumption.
        intros w2 s2 E P2 L. destruct w2 as [|c2 w2]; [simpl in L; lia|].
        simpl in E. injection E as <- E. simpl in P2. apply andb_true_iff in P2 as [_ P2].
        apply (Hmax w2 s2 E P2). simpl in L. lia.
      * intros Hk. exists [], (c :: s). repeat split; try assumption.
        intros w2 s2 E P2 L. destruct w2 as [|c2 w2]; [simpl in L; lia|].
        simpl in E. injection E as <- E. simpl in P2. apply andb_true_iff in P2 as [_ P2].
        destruct (k s2) as [y|] eqn:K; [|reflexivity].
        assert (is_Some (star_greedy p (w2 ++ s2) k)) as [z Hz]
            by (apply star_greedy_complete; [assumption | rewrite K; eauto]).
        rewrite <- E, G in Hz. discriminate.
    + intros Hk. exists [], (c :: s). repeat split; try assumption.
      intros w2 s2 E P2 L. destruct w2 as [|c2 w2]; [simpl in L; lia|].
      simpl in E. injection E as <- E. simpl in P2. rewrite Pc in P2. discriminate.
Qed.

(** A greedy group [(p+)] followed by [r] captures the longest run of
    [p] after which [r] and the rest of the pattern still match. *)
Lemma rmatch_plus_longest p r s caps (k : list N -> list (list N) -> option R) x :
  rmatch (Grp (Plus true p) >> r) s caps k = Some x ->
  exists w s', s = w ++ s' /\ w <> [] /\ forallb p w = true
    /\ rmatch r s' (caps ++ [w]) k = Some x
    /\ forall w2 s2, s = w2 ++ s2 -> forallb p w2 = true ->
                     (length w < length w2)%nat -> rmatch r s2 (caps ++ [w2]) k = None.
Proof.
  cbn [rmatch star]. destruct s as [|c s]; [discriminate|].
  destruct (p c) eqn:Pc; [|discriminate].
  intros H. apply star_greedy_longest in H as (w & s' & -> & Hw & Hk & Hmax).
  exists (c :: w), s'. split; [reflexivity|]. split; [discriminate|].
  split; [simpl; rewrite Pc, Hw; reflexivity|].
  change (c :: w ++ s') with ((c :: w) ++ s') in Hk. rewrite take_captured in Hk.
  split; [exact Hk|].
  intros w2 s2 E P2 L. destruct w2 as [|c2 w2]; [simpl in L; lia|].
  simpl in E. injection E as <- E. simpl in P2. apply andb_true_iff in P2 as [_ P2].
  simpl in L. specialize (Hmax w2 s2 E P2 ltac:(lia)). cbv beta in Hmax.
  rewrite E in Hmax. change (c :: w2 ++ s2) with ((c :: w2) ++ s2) in Hmax.
  rewrite take_captured in Hmax. exact Hmax.
Qed.
End GreedyLongest.

(** X9: the category group is greedy: when the base name can be read as
    a trace name followed by other text in several ways, the category
    returned is the longest of them. *)
Theorem parse_trace_filename_longest_category f dt c i d' t' c' i' rest' :
  parse_trace_filename f = Ok (Some (dt, c, i)) ->
  basename f = trace_name d' t' c' i' ++ rest' ->
  trace_fields d' t' c' i' ->
  (length c' <= length c)%nat.
Proof.
  intros H Hb [H1 H2 H3 H4 H5 H6 H7 H8].
  unfold parse_trace_filename in H. rewrite Hb in H.
  unfold re_match, trace_pattern, trace_name in H.
  rewrite <- !app_assoc in H.
  rewrite rmatch_lit_cat, rmatch_times_cat in H by assumption.
  rewrite rmatch_lit_cat, rmatch_times_cat in H by assumption.
  rewrite rmatch_lit_cat in H.
  destruct (rmatch _ _ _ _) as [[cs rest]|] eqn:E in H; [|discriminate].
  apply rmatch_plus_longest in E as (w & s' & Es & _ & _ & E2 & Hmax).
  apply rmatch_sound in E2 as (w3 & s3 & cs3 & _ & _ & K).
  injection K as <- <-.
  assert (w = c) as ->.
  { cbn [app] in H. destruct cs3 as [|x [|y cs3]]; cbn [app] in H; try discriminate.
    destruct (strptime d' t'); [|discriminate]. congruence. }
  destruct (Nat.le_gt_cases (length c') (length c)) as [L|L]; [exact L|].
  specialize (Hmax c' _ eq_refl H6 L).
  assert (is_Some (rmatch (Lit (u "_") >> Grp (Plus true is_hex_lower) >> Lit (u ".md"))
                     ((u "_" ++ i' ++ u ".md") ++ rest') (([] ++ [d']) ++ [t'] ++ [c'])
                     (fun rest0 caps' => Some (caps', rest0)))) as [y Hy].
  { apply (rmatch_complete _ _ [i']); [|eauto].
    apply (matches_cat_intro _ _ (u "_") (i' ++ u ".md") [] [i']);
      [apply M_Lit | | reflexivity | reflexivity].
    apply (matches_cat_intro _ _ i' (u ".md") [i'] []);
      [| apply M_Lit | reflexivity | reflexivity].
    apply (matches_grp_intro _ _ []); [apply M_Plus; assumption | reflexivity]. }
  rewrite <- !app_assoc in Hy. cbn [app] in Hy, Hmax. rewrite Hmax in Hy. discriminate.
Qed.

Lemma parse_trace_filename_longest_category_witness :
  (length (u "A") <= length (u "A_ab.md"))%nat.
Proof.
  apply (parse_trace_filename_longest_category (u "trace_20260107_1229_A_ab.md_cd.md")
           (mk_datetime 2026 1 7 12 29 0) (u "A_ab.md") (u "cd")
           (u "20260107") (u "1229") (u "A") (u "ab") (u "_cd.md")).
  - vm_compute. reflexivity.
  - vm_compute. reflexivity.
  - split; first [reflexivity | discriminate].
Defined.

(** ** StepSegmenter: the fields of a step, texts put together *)


Lemma is_dot_no_newline s : forallb is_dot s = true -> NL ∉ s.
Proof.
  intros H Hin. apply list_elem_of_In in Hin. rewrite forallb_forall in H.
  specialize (H _ Hin). unfold is_dot in H. rewrite N.eqb_refl in H. discriminate.
Qed.



Lemma close_step_app pre steps cur : close_step (pre ++ steps) cur = pre ++ close_step steps cur.
Proof. destruct cur; simpl; [rewrite app_assoc|]; reflexivity. Qed.

(** The steps closed before the loop runs on do not influence it. *)
Lemma segment_fold_prefix pre lines :
  forall steps cur,
    fold_left segment_line lines (pre ++ steps, cur)
    = (pre ++ (fold_left segment_line lines (steps, cur)).1,
       (fold_left segment_line lines (steps, cur)).2).
Proof.
  induction lines as [|line lines IH]; intros steps cur; [reflexivity|].
  cbn [fold_left].
  destruct (re_match step_pattern line) as [[groups rest]|] eqn:E.
  - rewrite !(segment_line_header _ _ _ _ _ E), close_step_app. apply IH.
  - rewrite !(segment_line_other _ _ _ E). destruct cur; apply IH.
Qed.

(** X11: traces put one after the other are segmented independently:
    when the second text opens with a header line, the steps of the two
    texts joined by a line break are those of the first followed by
    those of the second. *)
Theorem segment_app a b :
  is_header (hd [] (split NL b)) = true ->
  segment (a ++ nl ++ b) = segment a ++ segment b.
Proof.
  intros Hh. unfold segment. change (a ++ nl ++ b) with (a ++ NL :: b).
  rewrite split_app_sep, fold_left_app.
  destruct (fold_left segment_line (split NL a) ([], None)) as [steps cur].
  pose proof (split_nonempty NL b) as Hne.
  destruct (split NL b) as [|h lines]; [congruence|]. cbn [hd] in Hh.
  unfold is_header in Hh.
  destruct (re_match step_pattern h) as [[groups rest]|] eqn:E; [|discriminate].
  cbn [fold_left]. rewrite !(segment_line_header _ _ _ _ _ E).
  cbn [close_step]. rewrite <- (app_nil_r (close_step steps cur)) at 1.
  rewrite segment_fold_prefix.
  destruct (fold_left segment_line lines ([], _)) as [steps' cur'].
  cbn [fst snd]. rewrite close_step_app. reflexivity.
Qed.

Lemma segment_app_witness :
  segment (u "## 1. Fetch (12:00:01)
a" ++ nl ++ u "## 2. Segment Writer Result (12:00:05)
b")
  = segment (u "## 1. Fetch (12:00:01)
a")
    ++ segment (u "## 2. Segment Writer Result (12:00:05)
b").
Proof.
  apply segment_app. vm_compute. reflexivity.
Defined.

Section LazyGroup.
Context {R : Type}.

(** The lazy run stops at the first position that the continuation
    accepts. *)
Lemma star_lazy_shortest p s (k : list N -> option R) x :
  star_lazy p s k = Some x ->
  exists w s', s = w ++ s' /\ k s' = Some x
    /\ forall w2 s2, s = w2 ++ s2 -> (length w2 < length w)%nat -> k s2 = None.
Proof.
  induction s as [|c s IH]; simpl.
  - destruct (k []) eqn:K; [|discriminate]. intros [= <-].
    exists [], []. repeat split; [exact K|]. intros w2 s2 _ L. simpl in L. lia.
  - destruct (k (c :: s)) eqn:K.
    + intros [= <-]. exists [], (c :: s). repeat split; [exact K|].
      intros w2 s2 _ L. simpl in L. lia.
    + destruct (p c); [|discriminate]. intros H.
      destruct (IH H) as (w & s' & -> & Hk & Hmin).
      exists (c :: w), s'. repeat split; [exact Hk|].
      intros w2 s2 E L. destruct w2 as [|c2 w2].
      * simpl in E. subst s2. exact K.
      * simpl in E. injection E as <- E. apply (Hmin w2 s2 E). simpl in L. lia.
Qed.

(** A lazy group [(p+?)] followed by [r] captures the shortest run
    after which [r] and the rest of the pattern match. *)
Lemma rmatch_plus_shortest p r s caps (k : list N -> list (list N) -> option R) x :
  rmatch (Grp (Plus false p) >> r) s caps k = Some x ->
  exists w s', s = w ++ s' /\ w <> []
    /\ rmatch r s' (caps ++ [w]) k = Some x
    /\ forall w2 s2, s = w2 ++ s2 -> w2 <> [] ->
                     (length w2 < length w)%nat -> rmatch r s2 (caps ++ [w2]) k = None.
Proof.
  cbn [rmatch star]. destruct s as [|c s]; [discriminate|].
  destruct (p c) eqn:Pc; [|discriminate].
  intros H. apply star_lazy_shortest in H as (w & s' & -> & Hk & Hmin).
  exists (c :: w), s'. split; [reflexivity|]. split; [discriminate|].
  change (c :: w ++ s') with ((c :: w) ++ s') in Hk. rewrite take_captured in Hk.
  split; [exact Hk|].
  intros w2 s2 E Hne L. destruct w2 as [|c2 w2]; [congruence|].
  simpl in E. injection E as <- E.
  simpl in L. specialize (Hmin w2 s2 E ltac:(lia)). cbv beta in Hmin.
  rewrite E in Hmin. change (c :: w2 ++ s2) with ((c :: w2) ++ s2) in Hmin.
  rewrite take_captured in Hmin. exact Hmin.
Qed.
End LazyGroup.

(** Two runs of digits followed by a dot in the same text are the same
    run. *)
Lemma digits_dot_inj (a b x y : list N) :
  forallb is_digit a = true -> forallb is_digit b = true ->
  a ++ 46%N :: x = b ++ 46%N :: y -> a = b /\ x = y.
Proof.
  revert b. induction a as [|c a IH]; intros [|d b] Ha Hb E; simpl in *.
  - injection E as <-. auto.
  - injection E as <- _. apply andb_true_iff in Hb as [Hb _]. discriminate.
  - injection E as -> _. apply andb_true_iff in Ha as [Ha _]. discriminate.
  - injection E as <- E. apply andb_true_iff in Ha as [_ Ha].
    apply andb_true_iff in Hb as [_ Hb].
    destruct (IH b Ha Hb E) as [-> ->]. auto.
Qed.

(** X12: the name and the time label of a header are read lazily: of all
    the ways to read a line as [## <number>. <name> (<time>)] followed by
    other text, the step takes the one with the shortest name and, for
    this name, the shortest time label; a name that holds a parenthesis
    is cut before it, and the text in that parenthesis becomes the time
    label. *)
Theorem step_header_shortest line groups rest n raw t rest' :
  re_match step_pattern line = Some (groups, rest) ->
  line = u "## " ++ n ++ u ". " ++ raw ++ u " (" ++ t ++ u ")" ++ rest' ->
  n <> [] -> forallb is_digit n = true ->
  raw <> [] -> forallb is_dot raw = true ->
  t <> [] -> forallb is_dot t = true ->
  nth 0 groups [] = n
  /\ (length (nth 1 groups []) <= length raw)%nat
  /\ (nth 1 groups [] = raw -> (length (nth 2 groups []) <= length t)%nat).
Proof.
  intros M -> Hn Dn Hraw Draw Ht Dt.
  unfold re_match, step_pattern in M. rewrite rmatch_lit_cat in M.
  apply rmatch_plus_longest in M as (w & s' & Es & _ & Dw & M & _).
  cbn [rmatch] in M.
  destruct (startswith (u ". ") s') eqn:S1; [|discriminate].
  apply startswith_spec in S1 as [s1 ->].
  rewrite drop_app_length in M.
  change (u ". " ++ ?x) with (46%N :: 32%N :: x) in Es.
  apply digits_dot_inj in Es as [<- Es]; try assumption.
  injection Es as <-.
  change (rmatch (Grp (Plus false is_dot) >> Lit (u " (") >> Grp (Plus false is_dot)
                  >> Lit (u ")"))
                 (raw ++ u " (" ++ t ++ u ")" ++ rest') ([] ++ [n])
                 (fun rest0 caps' => Some (caps', rest0)) = Some (groups, rest)) in M.
  apply rmatch_plus_shortest in M as (w1 & s2 & E1 & Hw1 & M & Hmin1).
  assert (exists g3 cs, groups = [n; w1; g3] ++ cs
                        /\ (w1 = raw -> (length g3 <= length t)%nat)) as (g3 & cs & -> & H3).
  { cbn [rmatch] in M.
    destruct (startswith (u " (") s2) eqn:S2; [|discriminate].
    apply startswith_spec in S2 as [s3 ->]. rewrite drop_app_length in M.
    change (rmatch (Grp (Plus false is_dot) >> Lit (u ")")) s3 (([] ++ [n]) ++ [w1])
                   (fun rest0 caps' => Some (caps', rest0)) = Some (groups, rest)) in M.
    apply rmatch_plus_shortest in M as (w3 & s4 & -> & Hw3 & M & Hmin3).
    apply rmatch_sound in M as (w4 & s5 & cs & _ & _ & K). injection K as <- _.
    exists w3, cs. split; [reflexivity|].
    intros ->. apply app_inv_head in E1. apply (app_inv_head (u " (")) in E1.
    destruct (Nat.le_gt_cases (length w3) (length t)) as [L|L]; [exact L|].
    specialize (Hmin3 t (u ")" ++ rest') (eq_sym E1) Ht L).
    cbn [rmatch] in Hmin3. rewrite startswith_app in Hmin3. discriminate. }
  cbn [nth app]. split; [reflexivity|]. split; [|exact H3].
  destruct (Nat.le_gt_cases (length w1) (length raw)) as [L|L]; [exact L|].
  specialize (Hmin1 raw _ eq_refl Hraw L).
  assert (is_Some (rmatch (Lit (u " (") >> Grp (Plus false is_dot) >> Lit (u ")"))
                     ((u " (" ++ t ++ u ")") ++ rest') (([] ++ [n]) ++ [raw])
                     (fun rest0 caps' => Some (caps', rest0)))) as [y Hy].
  { apply (rmatch_complete _ _ [t]); [|eauto].
    apply (matches_cat_intro _ _ (u " (") (t ++ u ")") [] [t]);
      [apply M_Lit | | reflexivity | reflexivity].
    apply (matches_cat_intro _ _ t (u ")") [t] []);
      [| apply M_Lit | reflexivity | reflexivity].
    apply (matches_grp_intro _ _ []); [apply M_Plus; assumption | reflexivity]. }
  replace ((u " (" ++ t ++ u ")") ++ rest') with (u " (" ++ t ++ u ")" ++ rest') in Hy
    by (rewrite <- !app_assoc; reflexivity).
  rewrite Hmin1 in Hy. discriminate.
Qed.

Lemma step_header_shortest_witness :
  nth 0 [u "3"; u "Fetch"; u "RSS"] [] = u "3"
  /\ (length (nth 1 [u "3"; u "Fetch"; u "RSS"] []) <= length (u "Fetch (RSS)"))%nat
  /\ (nth 1 [u "3"; u "Fetch"; u "RSS"] [] = u "Fetch (RSS)"
      -> (length (nth 2 [u "3"; u "Fetch"; u "RSS"] []) <= length (u "12:00:01"))%nat).
Proof.
  apply (step_header_shortest (u "## 3. Fetch (RSS) (12:00:01)") _ (u " (12:00:01)")
           (u "3") (u "Fetch (RSS)") (u "12:00:01") []);
    first [discriminate | vm_compute; reflexivity].
Defined.

(** ** Materials and SourceReconciler: line breaks, titles that are only a tag *)

Lemma lstrip_suffix s : exists ws, s = ws ++ lstrip s.
Proof.
  induction s as [|c s [ws IH]]; [exists []; reflexivity|]. simpl.
  destruct (is_space c); [|exists []; reflexivity].
  exists (c :: ws). simpl. f_equal. exact IH.
Qed.

Lemma strip_infix s : exists a b, s = a ++ strip s ++ b.
Proof.
  unfold strip, rstrip.
  destruct (lstrip_suffix s) as [a Ha].
  destruct (lstrip_suffix (rev (lstrip s))) as [b Hb].
  exists a, (rev b). rewrite <- rev_app_distr, <- Hb, rev_involutive. exact Ha.
Qed.

Lemma strip_elem (x : N) s : x ∈ strip s -> x ∈ s.
Proof.
  intros H. destruct (strip_infix s) as (a & b & E). rewrite E.
  apply elem_of_app. right. apply elem_of_app. left. exact H.
Qed.

Lemma replace_from_elem (x : N) old new s :
  forall k, x ∈ replace_from old new k s -> x ∈ s \/ x ∈ new.
Proof.
  induction s as [|c s IH]; intros k H; simpl in H; [left; exact H|].
  destruct k as [|k].
  - destruct (startswith old (c :: s)).
    + apply elem_of_app in H as [H|H]; [right; exact H|].
      destruct (IH _ H) as [H'|H']; [left; apply list_elem_of_further; exact H' | right; exact H'].
    + apply elem_of_cons in H as [->|H]; [left; apply list_elem_of_here|].
      destruct (IH _ H) as [H'|H']; [left; apply list_elem_of_further; exact H' | right; exact H'].
  - destruct (IH _ H) as [H'|H']; [left; apply list_elem_of_further; exact H' | right; exact H'].
Qed.

Lemma strip_unlabel_no_newline label line :
  (NL ∉ line) -> NL ∉ strip (replace label [] line).
Proof.
  intros Hl H. apply strip_elem, replace_from_elem in H as [H|H]; [exact (Hl H)|].
  apply elem_of_nil in H. exact H.
Qed.

Lemma extend_item_no_newline it line :
  (NL ∉ line) -> (NL ∉ summary it) -> (NL ∉ source it) ->
  (NL ∉ summary (extend_item it line)) /\ (NL ∉ source (extend_item it line)).
Proof.
  intros Hl Hs Hr. unfold extend_item.
  destruct (startswith SUMMARY_LABEL line); [|destruct (startswith SOURCE_LABEL line)];
    cbn [summary source]; (split; [|try assumption]); try assumption;
    rewrite ?not_elem_of_app; repeat split; try assumption;
    try (apply strip_unlabel_no_newline; assumption).
  change (u " ") with [32%N]. rewrite not_elem_of_cons. split; [discriminate|].
  apply not_elem_of_nil.
Qed.

Lemma entry_fold_no_newline lines :
  forall it,
    Forall (fun l => NL ∉ l) lines -> (NL ∉ summary it) -> (NL ∉ source it) ->
    (NL ∉ summary (fold_left extend_item lines it))
    /\ (NL ∉ source (fold_left extend_item lines it)).
Proof.
  induction lines as [|l lines IH]; intros it Hl Hs Hr; [split; assumption|].
  inversion Hl; subst. cbn [fold_left].
  destruct (extend_item_no_newline it l) as [Hs' Hr']; try assumption.
  apply IH; assumption.
Qed.

Lemma material_lines_no_newline materials_raw :
  Forall (fun l => NL ∉ l) (material_lines materials_raw).
Proof.
  unfold material_lines. apply Forall_forall. intros l Hl.
  apply list_elem_of_In, filter_In in Hl as [Hl _].
  apply in_map_iff in Hl as (l0 & <- & Hl0). intros H. apply strip_elem in H.
  pose proof (split_parts_no_sep NL (strip materials_raw)) as Hp.
  rewrite Forall_forall in Hp. apply list_elem_of_In in Hl0. exact (Hp l0 Hl0 H).
Qed.

Lemma block_in_lines_of (b : list N * list (list N)) blocks l :
  b ∈ blocks -> l ∈ b.1 :: b.2 -> l ∈ lines_of blocks.
Proof.
  intros Hb Hl. unfold lines_of. apply list_elem_of_In, in_concat.
  exists (b.1 :: b.2). split; [|apply list_elem_of_In; exact Hl].
  apply in_map_iff. exists b. split; [reflexivity | apply list_elem_of_In; exact Hb].
Qed.

(** The entries of a materials block are those of the blocks of its
    lines. *)
Lemma parse_materials_blocks materials_raw :
  exists pre blocks,
    material_lines materials_raw = pre ++ lines_of blocks
    /\ parse_materials materials_raw = map entry_of blocks.
Proof.
  destruct (material_step_fold (material_lines materials_raw) [] None)
    as (pre & blocks & Hl & _ & _ & Hst).
  exists pre, blocks. split; [exact Hl|].
  unfold parse_materials. rewrite material_fold. fold (material_lines materials_raw).
  cbn [option_map close_item app] in Hst. rewrite <- Hst. unfold close_items.
  destruct (fold_left material_step (material_lines materials_raw) ([], None)); reflexivity.
Qed.

Lemma flatten_newlines_no_newline s : NL ∉ flatten_newlines s.
Proof.
  unfold flatten_newlines. intros H. apply list_elem_of_fmap in H as (c & Hc & _).
  destruct (N.eqb_spec c NL); [discriminate | congruence].
Qed.

(** X13: no field of an entry read from a materials block holds a line
    break, and neither does the summary chosen for it, whatever the
    source record is: the summary of the catalog has its line breaks
    replaced by spaces, and it is only chosen when it is longer than the
    one of the trace, so that the summary shown is never the shorter of
    the two. *)
Theorem parse_materials_no_newline materials_raw :
  Forall (fun e =>
            (NL ∉ title_line e) /\ (NL ∉ summary e) /\ (NL ∉ source e)
            /\ forall ns, (NL ∉ final_summary ns e)
                          /\ (length (summary e) <= length (final_summary ns e))%nat)
         (parse_materials materials_raw).
Proof.
  destruct (parse_materials_blocks materials_raw) as (pre & blocks & Hl & ->).
  pose proof (material_lines_no_newline materials_raw) as Hn.
  rewrite Hl, Forall_app in Hn. destruct Hn as [_ Hn]. rewrite Forall_forall in Hn.
  rewrite Forall_map, Forall_forall. intros b Hb.
  assert (NL ∉ b.1) as H1
      by (apply Hn, (block_in_lines_of b); [exact Hb | apply list_elem_of_here]).
  assert (Forall (fun l => NL ∉ l) b.2) as H2.
  { apply Forall_forall. intros l Hin. apply Hn, (block_in_lines_of b); [exact Hb|].
    apply list_elem_of_further. exact Hin. }
  unfold entry_of.
  destruct (entry_fold_no_newline b.2 (mk_MaterialEntry (drop 2 b.1) [] []) H2)
    as [Hs Hr]; try apply not_elem_of_nil.
  split; [|split; [exact Hs|split; [exact Hr|]]].
  - rewrite title_line_fold. cbn [title_line]. intros H. apply H1.
    apply list_elem_of_In. apply list_elem_of_In in H.
    rewrite <- (take_drop 2 b.1). apply in_or_app. right. exact H.
  - intros ns. destruct (final_summary_spec ns (fold_left extend_item b.2
                                                  (mk_MaterialEntry (drop 2 b.1) [] [])))
      as [Hdb Htr].
    cbv zeta in Hdb, Htr.
    set (e := fold_left extend_item b.2 (mk_MaterialEntry (drop 2 b.1) [] [])) in *.
    set (db := default [] (source_summary ns)) in *.
    destruct (decide (db <> [] /\ (length (summary e) < length db)%nat)) as [D|D].
    + rewrite (Hdb D). split; [apply flatten_newlines_no_newline|].
      unfold flatten_newlines. rewrite length_map. lia.
    + rewrite (Htr D). split; [exact Hs | lia].
Qed.

Lemma lstrip_idem s : lstrip (lstrip s) = lstrip s.
Proof.
  induction s as [|c s IH]; [reflexivity|]. simpl.
  destruct (is_space c) eqn:E; [exact IH|]. simpl. rewrite E. reflexivity.
Qed.

Lemma star_greedy_lstrip {R} (f : list N -> R) s :
  star_greedy is_space s (fun s' => Some (f s')) = Some (f (lstrip s)).
Proof.
  induction s as [|c s IH]; [reflexivity|]. simpl.
  destruct (is_space c); [rewrite IH|]; reflexivity.
Qed.

(** The lazy run over [w] stops at its end when the continuation
    accepts there and refuses every earlier position. *)
Lemma star_lazy_exact {R} p w s' (k : list N -> option R) :
  forallb p w = true ->
  (forall m, (m < length w)%nat -> k (drop m (w ++ s')) = None) ->
  star_lazy p (w ++ s') k = star_lazy p s' k.
Proof.
  induction w as [|c w IH]; intros Hw Hk; [reflexivity|].
  simpl in Hw. apply andb_true_iff in Hw as [Pc Hw].
  pose proof (Hk 0%nat ltac:(simpl; lia)) as K0.
  change (drop 0 ((c :: w) ++ s')) with (c :: w ++ s') in K0.
  cbn [app star_lazy]. rewrite K0, Pc. apply IH; [exact Hw|].
  intros m Hm. apply (Hk (S m)). simpl. lia.
Qed.

Lemma star_lazy_here {R} p s (k : list N -> option R) :
  is_Some (k s) -> star_lazy p s k = k s.
Proof. intros [y Hy]. destruct s; simpl; rewrite Hy; reflexivity. Qed.

(** X14: the tag taken off a title is its first bracket only: for a
    title that opens with a bracket whose text holds no closing bracket,
    the cleaned title is the text after that bracket, stripped, so a
    second tag stays in it. *)
Theorem clean_title_tag tag rest :
  Forall (fun c => c <> 93%N /\ c <> NL) tag ->
  clean_title (u "[" ++ tag ++ u "]" ++ rest) = strip rest.
Proof.
  intros Ht. unfold clean_title, re_sub_at_start, re_match, tag_pattern.
  rewrite rmatch_lit_cat. cbn [rmatch star].
  assert (forallb is_dot tag = true) as Hd.
  { apply forallb_forall. intros c Hc. rewrite Forall_forall in Ht.
    apply list_elem_of_In in Hc. destruct (Ht c Hc) as [_ Hnl].
    unfold is_dot. destruct (N.eqb_spec c NL); [congruence | reflexivity]. }
  rewrite star_lazy_exact; [|exact Hd|].
  - rewrite star_lazy_here;
      rewrite startswith_app, drop_app_length, star_greedy_lstrip; [|eauto].
    cbn [app]. unfold strip. rewrite lstrip_idem. reflexivity.
  - intros m Hm.
    rewrite drop_app_le by lia.
    assert (Forall (fun c => c <> 93%N /\ c <> NL) (drop m tag)) as Hdrop
        by (apply Forall_drop; exact Ht).
    destruct (drop m tag) as [|c tl] eqn:E.
    + apply (f_equal length) in E. rewrite length_drop in E. simpl in E. lia.
    + inversion Hdrop as [|? ? [Hc _] _]; subst.
      change (startswith (u "]") ((c :: tl) ++ u "]" ++ rest)) with ((93 =? c)%N && true).
      destruct (N.eqb_spec 93 c); [congruence | reflexivity].
Qed.

Lemma clean_title_tag_witness :
  clean_title (u "[" ++ u "AI" ++ u "]" ++ u "[Video]  Big model released ")
  = strip (u "[Video]  Big model released ").
Proof.
  apply clean_title_tag. repeat constructor; discriminate.
Defined.

Lemma contains_nil s : contains [] s = true.
Proof. destruct s; reflexivity. Qed.

(** X15: a title that is nothing but a tag in brackets matches every
    source that has a title: such an entry is paired with the first
    source record whose title is not empty, whatever that title is. *)
Theorem find_source_tag_only title sources :
  clean_title title = [] ->
  find_source title sources
  = head (List.filter (fun ns => negb (str_eqb (default [] (source_title ns)) [])) sources).
Proof.
  intros Hc. induction sources as [|ns sources IH]; [reflexivity|].
  cbn [find_source List.filter]. unfold source_matches at 1.
  rewrite Hc, contains_nil, orb_true_r, orb_true_l, andb_true_r.
  destruct (negb _); [reflexivity | exact IH].
Qed.

Lemma find_source_tag_only_witness :
  find_source (u "[AI]")
    [mk_SourceRecord None (Some (u "x")) None;
     mk_SourceRecord (Some (u "Weather in Paris")) None None;
     mk_SourceRecord (Some (u "AI")) None None]
  = Some (mk_SourceRecord (Some (u "Weather in Paris")) None None).
Proof.
  apply (find_source_tag_only (u "[AI]")). vm_compute. reflexivity.
Defined.

(** ** ReportBuilder: the chapters *)

Lemma build_item_map_snoc raw_items g :
  build_item_map (raw_items ++ [g])
  = <[nth 0 g [] := strip (nth 1 g [])]> (build_item_map raw_items).
Proof. unfold build_item_map. rewrite fold_left_app. reflexivity. Qed.

(** X16: when the prompt of the plan lists an id more than once, the title
    kept for it is that of its last line: the map of ids to titles
    answers a key with the stripped title of the last pair that has this
    key, and has no entry for a key that no pair has. *)
Theorem build_item_map_lookup raw_items k :
  build_item_map raw_items !! k
  = (fun g => strip (nth 1 g []))
      <$> last (List.filter (fun g => str_eqb (nth 0 g []) k) raw_items).
Proof.
  induction raw_items as [|g raw_items IH] using rev_ind; [reflexivity|].
  rewrite build_item_map_snoc, List.filter_app. cbn [List.filter].
  destruct (str_eqb (nth 0 g []) k) eqn:E.
  - apply str_eqb_eq in E. subst k. rewrite lookup_insert_eq, last_snoc. reflexivity.
  - rewrite app_nil_r, lookup_insert_ne; [exact IH|].
    intros H. apply str_eqb_eq in H. congruence.
Qed.

(** The equations of [render_order]. *)
Lemma render_order_nil item_map i : render_order item_map i [] = [].
Proof. reflexivity. Qed.

Lemma render_order_at_container item_map i rest :
  render_order item_map i (JContainer :: rest) = u "Failed to parse planning JSON." ++ nl.
Proof. reflexivity. Qed.

Lemma render_order_string item_map i short_id rest :
  render_order item_map i (JString short_id :: rest)
  = str_of_nat (i + 1) ++ u ". **" ++ default (u "Unknown Item") (item_map !! short_id)
    ++ u "** (`" ++ short_id ++ u "`)" ++ nl ++ render_order item_map (S i) rest.
Proof. reflexivity. Qed.

Lemma render_order_scalar item_map i text rest :
  render_order item_map i (JScalar text :: rest)
  = str_of_nat (i + 1) ++ u ". **" ++ u "Unknown Item"
    ++ u "** (`" ++ text ++ u "`)" ++ nl ++ render_order item_map (S i) rest.
Proof. reflexivity. Qed.

(** X17: an element of the planned order that is an array or an object
    stops the list: the lines of the elements before it stay in the
    report, the failure line follows them, and the elements after it are
    never shown. *)
Theorem render_order_container item_map i pre rest :
  Forall (fun x => x <> JContainer) pre ->
  render_order item_map i (pre ++ JContainer :: rest)
  = render_order item_map i pre ++ u "Failed to parse planning JSON." ++ nl.
Proof.
  revert i. induction pre as [|x pre IH]; intros i H.
  - rewrite app_nil_l, render_order_at_container, render_order_nil, app_nil_l.
    reflexivity.
  - inversion H as [|? ? Hx Hpre]; subst.
    rewrite <- app_comm_cons.
    destruct x as [s|t|]; [| |congruence].
    + rewrite !render_order_string, (IH _ Hpre), <- !app_assoc. reflexivity.
    + rewrite !render_order_scalar, (IH _ Hpre), <- !app_assoc. reflexivity.
Qed.

Lemma render_order_container_witness :
  render_order ∅ 0 ([JString (u "ab12"); JScalar (u "7")] ++ JContainer :: [JString (u "cd34")])
  = render_order ∅ 0 [JString (u "ab12"); JScalar (u "7")]
    ++ u "Failed to parse planning JSON." ++ nl.
Proof.
  apply render_order_container. repeat constructor; discriminate.
Defined.

Lemma re_search_sound r s pre caps rest :
  re_search r s = Some (pre, caps, rest) ->
  exists s', s = pre ++ s' /\ re_match r s' = Some (caps, rest).
Proof.
  revert pre. induction s as [|c s IH]; intros pre; simpl.
  - destruct (re_match r []) as [[cs rs]|] eqn:E; [|discriminate].
    intros [= <- <- <-]. exists []. auto.
  - destruct (re_match r (c :: s)) as [[cs rs]|] eqn:E.
    + intros [= <- <- <-]. exists (c :: s). auto.
    + destruct (re_search r s) as [[[pre' cs] rs]|]; [|discriminate].
      intros [= <- <- <-]. destruct (IH pre' eq_refl) as (s' & -> & M).
      exists s'. auto.
Qed.

(** The text captured by the lazy group of a pattern [head (.*?) fence]:
    no closing fence stands wholly inside it. *)
Lemma lazy_group_no_fence head fence s caps rest :
  fence <> [] ->
  re_match (Lit head >> Grp (Star false is_any) >> Lit fence) s = Some (caps, rest) ->
  exists g, caps = [g] /\ contains fence g = false.
Proof.
  intros Hf. unfold re_match. cbn [rmatch star].
  destruct (startswith head s); [|discriminate].
  set (X := drop (length head) s).
  intros H. apply star_lazy_shortest in H as (w & s' & E & Hk & Hmin).
  rewrite E, take_captured in Hk.
  destruct (startswith fence s'); [|discriminate].
  injection Hk as <- _. exists w. split; [reflexivity|].
  destruct (contains fence w) eqn:C; [|reflexivity].
  apply contains_spec in C as (a & b & ->).
  specialize (Hmin a (fence ++ b ++ s')).
  rewrite E, <- !app_assoc in Hmin. specialize (Hmin eq_refl).
  rewrite startswith_app in Hmin.
  assert (length a < length (a ++ fence ++ b))%nat as L.
  { rewrite !length_app. destruct fence; [congruence|]. simpl. lia. }
  specialize (Hmin L). discriminate.
Qed.

(** X18: the response block of a step ends before the first line that
    opens with a fence: the text taken for the script never holds a line
    break followed by a fence, so a response that quotes a fenced block
    is cut where the quoted block begins. *)
Theorem response_of_no_fence s r :
  response_of s = Some r -> contains (nl ++ u "```") r = false.
Proof.
  unfold response_of, group1.
  destruct (re_search response_pattern (content_str s)) as [[[pre caps] rest]|] eqn:E;
    [|discriminate].
  intros [= <-].
  apply re_search_sound in E as (s' & _ & M).
  apply lazy_group_no_fence in M as (g & -> & Hg); [|discriminate].
  cbn [nth].
  destruct (contains (nl ++ u "```") (strip g)) eqn:C; [|reflexivity].
  apply contains_spec in C as (a & b & E).
  destruct (strip_infix g) as (a' & b' & Eg).
  assert (contains (nl ++ u "```") g = true) as C'.
  { apply contains_spec. exists (a' ++ a), (b ++ b').
    rewrite Eg, E, <- !app_assoc. reflexivity. }
  congruence.
Qed.

Lemma response_of_no_fence_witness :
  contains (nl ++ u "```") (u "See:") = false.
Proof.
  apply (response_of_no_fence
           (mk_Step (u "7") (u "Segment Writer Result") (u "12:28:30")
              [u "**LLM Response**:"; u "```text"; u "See:"; u "```python"; u "x = 1";
               u "```"; u "Bye."; u "```"])).
  vm_compute. reflexivity.
Defined.

Lemma omap_length_le {A B} (f : A -> option B) l : (length (omap f l) <= length l)%nat.
Proof.
  induction l as [|x l IH]; [simpl; lia|].
  change (omap f (x :: l)) with (match f x with Some y => y :: omap f l | None => omap f l end).
  destruct (f x); simpl length; lia.
Qed.

Lemma omap_length_eq {A B} (f : A -> option B) l :
  length (omap f l) = length l <-> Forall (fun x => is_Some (f x)) l.
Proof.
  induction l as [|x l IH]; [split; [constructor | reflexivity]|].
  pose proof (omap_length_le f l). rewrite Forall_cons.
  change (omap f (x :: l)) with (match f x with Some y => y :: omap f l | None => omap f l end).
  destruct (f x) as [y|]; simpl length.
  - split.
    + intros [= H']. split; [eauto | apply IH; exact H'].
    + intros [_ H']. f_equal. apply IH. exact H'.
  - split; [lia | intros [[y Hy] _]; discriminate].
Qed.

(** X19: chapter 1 numbers the writer steps that have a response block,
    chapter 3 numbers all writer steps: the segments of chapter 1 are
    the responses of the writer steps in their order, there are never
    more of them than sections in chapter 3, and there are as many
    exactly when every writer step has a response block. *)
Theorem script_segments_writer_steps steps :
  script_segments steps = omap response_of (List.filter is_writer_step steps)
  /\ (length (script_segments steps) <= length (List.filter is_writer_step steps))%nat
  /\ (length (script_segments steps) = length (List.filter is_writer_step steps)
      <-> Forall (fun s => is_Some (response_of s)) (List.filter is_writer_step steps)).
Proof.
  assert (script_segments steps = omap response_of (List.filter is_writer_step steps)) as E.
  { unfold script_segments. induction steps as [|s steps IH]; [reflexivity|].
    cbn [omap list_omap List.filter].
    change (omap ?f steps) with (omap f steps) in IH.
    destruct (is_writer_step s); cbn [omap list_omap].
    - destruct (response_of s); [f_equal|]; exact IH.
    - exact IH. }
  rewrite E. split; [reflexivity|]. split; [apply omap_length_le | apply omap_length_eq].
Qed.

Lemma list_find_first_plan pre s rest :
  Forall (fun x => is_plan_step x = false) pre -> is_plan_step s = true ->
  snd <$> list_find is_plan_step (pre ++ s :: rest) = Some s.
Proof.
  intros Hpre Hs. induction Hpre as [|x pre Hx _ IH]; cbn [app list_find].
  - rewrite decide_True by (rewrite Hs; exact I). reflexivity.
  - rewrite decide_False by (rewrite Hx; exact id).
    destruct (list_find is_plan_step (pre ++ s :: rest)) as [[n y]|]; [|discriminate].
    exact IH.
Qed.

(** X20: only the first planning step is reported: chapter 2 is that of
    the first step whose name holds [Plan Episode Flow], and neither the
    steps before it nor any step after it, planning step or not, change
    it. *)
Theorem chapter2_first_plan json_loads pre s rest :
  Forall (fun x => is_plan_step x = false) pre -> is_plan_step s = true ->
  chapter2 json_loads (pre ++ s :: rest) = chapter2 json_loads [s].
Proof.
  intros Hpre Hs. unfold chapter2.
  pose proof (list_find_first_plan pre s rest Hpre Hs) as H1.
  pose proof (list_find_first_plan [] s [] (List.Forall_nil _) Hs) as H2.
  cbn [app] in H2.
  destruct (list_find is_plan_step (pre ++ s :: rest)) as [[n y]|]; [|discriminate].
  destruct (list_find is_plan_step [s]) as [[n' y']|]; [|discriminate].
  cbn in H1, H2. injection H1 as ->. injection H2 as ->. reflexivity.
Qed.

Lemma chapter2_first_plan_witness :
  let fetch := mk_Step (u "1") (u "Fetch") (u "12:00:01") [u "a"] in
  let plan := mk_Step (u "2") (u "Plan Episode Flow") (u "12:00:02") [u "b"] in
  let plan' := mk_Step (u "3") (u "Plan Episode Flow (retry)") (u "12:00:03") [u "c"] in
  chapter2 (fun _ => None) ([fetch] ++ plan :: [plan']) = chapter2 (fun _ => None) [plan].
Proof.
  intros fetch plan plan'. apply chapter2_first_plan.
  - repeat constructor.
  - vm_compute. reflexivity.
Defined.



(** ** The selection of [main] *)

(** X22: the selection accepts an index exactly when it lies between
    minus the number of items and that number less one: an empty or
    blank line stands for 0, and a negative index counts from the end of
    the list, so that -1 selects the last item listed; every other
    input, and every text that [int] refuses, ends in the invalid
    selection. *)
Theorem select_item_spec int items line it :
  let n := Z.of_nat (length items) in
  select_item int items line = Some it
  <-> exists idx,
        match strip line with
        | [] => idx = 0
        | _ :: _ => int (strip line) = Some idx
        end
        /\ - n <= idx < n
        /\ items !! Z.to_nat (idx mod n) = Some it.
Proof.
  intros n. unfold select_item.
  assert (forall idx, getitem items idx = Some it
                      <-> - n <= idx < n /\ items !! Z.to_nat (idx mod n) = Some it) as G.
  { intros idx. unfold getitem. fold n.
    destruct (Z.ltb_spec idx 0) as [Hneg|Hpos].
    - destruct (Z.ltb_spec (idx + n) 0) as [H1|H1]; cbn [orb]; [split; [discriminate | lia]|].
      destruct (Z.leb_spec n (idx + n)) as [H2|H2]; [lia|].
      assert (idx mod n = idx + n) as -> by (symmetry; apply (Z.mod_unique idx n (-1)); lia).
      split; [intros H; split; [lia | exact H] | intros [_ H]; exact H].
    - destruct (Z.ltb_spec idx 0) as [H1|H1]; [lia|]. cbn [orb].
      destruct (Z.leb_spec n idx) as [H2|H2]; [split; [discriminate | lia]|].
      rewrite Z.mod_small by lia.
      split; [intros H; split; [lia | exact H] | intros [_ H]; exact H]. }
  destruct (strip line) as [|c sel].
  - rewrite G. split; [intros H; exists 0; auto | intros (idx & -> & H); exact H].
  - destruct (int (c :: sel)) as [idx|].
    + rewrite G. split; [intros H; exists idx; auto | intros (idx' & [= <-] & H); exact H].
    + split; [discriminate | intros (idx & H & _); discriminate].
Qed.

Lemma select_item_spec_witness :
  let a := mk_Item (Some (u "a1")) None None None None in
  let b := mk_Item (Some (u "b2")) None None None None in
  let c := mk_Item (Some (u "c3")) None None None None in
  select_item (fun s => if str_eqb s (u "-1") then Some (-1) else None) [a; b; c] (u " -1 ")
  = Some c.
Proof.
  intros a b c.
  apply (proj2 (select_item_spec (fun s => if str_eqb s (u "-1") then Some (-1) else None)
                  [a; b; c] (u " -1 ") c)).
  exists (-1). split; [vm_compute; reflexivity|]. split; [simpl; lia | reflexivity].
Defined.
